(** * credshed: canonical account records and their identifiers

    A shallow embedding of [lib/validation.py] and [lib/account.py].

    Python [bytes] are lists of [byte]; Python [str] are lists of Unicode
    code points; the persistence document is a finite map from key names
    to text.  An exception is an explicit result ([Raise]).  *)

From Stdlib Require Import ZArith NArith List Bool Lia.
From Stdlib Require Import Strings.Byte Strings.String.
From stdpp Require Import base option list gmap strings.
Import ListNotations.

Local Open Scope N_scope.
Local Open Scope list_scope.

Abbreviation bytes := (list byte).
Abbreviation str := (list N).

(** ** The Python built-ins the two modules call *)

Module Py.

(** A bytes literal: [b "abc"] is [b'abc']. *)
Definition b (s : string) : bytes := list_byte_of_string s.

Definition ord (c : byte) : N := Byte.to_N c.

Definition chr (n : N) : byte := default "000"%byte (Byte.of_N (n mod 256)).

Definition in_range (lo hi c : byte) : bool :=
  (ord lo <=? ord c) && (ord c <=? ord hi).

Definition mem (c : byte) (s : bytes) : bool := existsb (Byte.eqb c) s.

(** [bytes.lower()] and [bytes.upper()] act on the ASCII letters only. *)
Definition lower_byte (c : byte) : byte :=
  if in_range "A" "Z" c then chr (ord c + 32) else c.

Definition upper_byte (c : byte) : byte :=
  if in_range "a" "z" c then chr (ord c - 32) else c.

Definition lower (s : bytes) : bytes := map lower_byte s.

(** ASCII whitespace, the default argument of [bytes.strip()]. *)
Definition whitespace : bytes :=
  [" "; "009"; "010"; "013"; "011"; "012"]%byte.

Fixpoint lstrip (chars s : bytes) : bytes :=
  match s with
  | c :: s' => if mem c chars then lstrip chars s' else s
  | [] => []
  end.

Definition rstrip (chars s : bytes) : bytes := rev (lstrip chars (rev s)).

(** [s.strip(chars)] *)
Definition strip (chars s : bytes) : bytes := rstrip chars (lstrip chars s).

(** [s.translate(None, delete)] *)
Definition translate_delete (delete s : bytes) : bytes :=
  List.filter (fun c => negb (mem c delete)) s.

Fixpoint startswith (s prefix : bytes) : bool :=
  match prefix, s with
  | [], _ => true
  | p :: prefix', c :: s' => Byte.eqb c p && startswith s' prefix'
  | _ :: _, [] => false
  end.

Definition endswith (s suffix : bytes) : bool :=
  startswith (rev s) (rev suffix).

(** [sub in s] on bytes objects: a substring test. *)
Fixpoint contains (s sub : bytes) : bool :=
  startswith s sub ||
  match s with
  | [] => false
  | _ :: s' => contains s' sub
  end.

(** [s.split(sep)] for a separator of one element; never the empty list. *)
Fixpoint split {A} (eqb : A → A → bool) (sep : A) (s : list A) : list (list A) :=
  match s with
  | [] => [[]]
  | c :: s' =>
      if eqb c sep then [] :: split eqb sep s'
      else match split eqb sep s' with
           | w :: ws => (c :: w) :: ws
           | [] => [[c]]
           end
  end.

(** [sep.join(parts)] *)
Fixpoint join {A} (sep : list A) (parts : list (list A)) : list A :=
  match parts with
  | [] => []
  | [p] => p
  | p :: ps => p ++ sep ++ join sep ps
  end.

(** [s[:n]] and [s[-n:]] for a positive [n]. *)
Definition slice_to {A} (n : nat) (s : list A) : list A := take n s.
Definition slice_last {A} (n : nat) (s : list A) : list A :=
  drop (length s - n) s.

(** A text literal: the code points of an ASCII string. *)
Definition u (s : string) : str := map ord (list_byte_of_string s).

(** [s.encode(encoding='utf-8')]; [None] is [UnicodeEncodeError], raised on
    a surrogate code point. *)
Definition utf8_char (c : N) : option bytes :=
  if c <? 128 then Some [chr c]
  else if c <? 2048 then Some [chr (192 + c / 64); chr (128 + c mod 64)]
  else if (55296 <=? c) && (c <=? 57343) then None
  else if c <? 65536 then
    Some [chr (224 + c / 4096); chr (128 + (c / 64) mod 64); chr (128 + c mod 64)]
  else
    Some [chr (240 + (c / 262144) mod 8); chr (128 + (c / 4096) mod 64);
          chr (128 + (c / 64) mod 64); chr (128 + c mod 64)].

Fixpoint encode_utf8 (s : str) : option bytes :=
  match s with
  | [] => Some []
  | c :: s' =>
      match utf8_char c, encode_utf8 s' with
      | Some x, Some y => Some (x ++ y)
      | _, _ => None
      end
  end.

End Py.

(** ** The [re] fragment used by [lib/validation.py]

    Every pattern of the module is a sequence of character classes under a
    counted repetition, between optional [^] and [$]; groups do not change
    whether a pattern matches.  [match_] is [Pattern.match]: the pattern is
    tried at position 0 only and may stop before the end of the subject.  *)

Module Re.

Inductive cset :=
| Range (lo hi : byte)
| Lit (c : byte)
| Dot.

Inductive item :=
| Rep (cls : list cset) (lo : nat) (hi : option nat)
| Bol
| Eol.

Record pattern := compile { items : list item; ignorecase : bool }.

Definition cset_has (cs : cset) (c : byte) : bool :=
  match cs with
  | Range lo hi => Py.in_range lo hi c
  | Lit x => Byte.eqb c x
  | Dot => negb (Byte.eqb c "010")
  end.

(** With [re.I] a byte is in a class when it or its other case is. *)
Definition in_class (icase : bool) (cls : list cset) (c : byte) : bool :=
  existsb (fun cs =>
    cset_has cs c ||
    (icase && (cset_has cs (Py.lower_byte c) || cset_has cs (Py.upper_byte c))))
    cls.

Definition below (hi : option nat) (n : nat) : bool :=
  match hi with
  | Some h => (n <? h)%nat
  | None => true
  end.

(** Greedy repetition with backtracking: [n] bytes of the class are already
    taken; take one more when allowed, else (or when the rest fails) hand the
    remainder to the continuation [k]. *)
Fixpoint rep (p : byte → bool) (lo : nat) (hi : option nat)
    (k : nat → bytes → bool) (n : nat) (s : bytes) : bool :=
  match s with
  | c :: s' => p c && below hi n && rep p lo hi k (S n) s'
  | [] => false
  end || ((lo <=? n)%nat && k n s).

(** [$] without [re.M]: at the end, or before a final newline. *)
Definition at_end (s : bytes) : bool :=
  match s with
  | [] => true
  | [c] => Byte.eqb c "010"
  | _ => false
  end.

Fixpoint run (icase : bool) (r : list item) (pos : nat) (s : bytes) : bool :=
  match r with
  | [] => true
  | Bol :: r' => (pos =? 0)%nat && run icase r' pos s
  | Eol :: r' => at_end s && run icase r' pos s
  | Rep cls lo hi :: r' =>
      rep (in_class icase cls) lo hi
          (fun n rest => run icase r' (pos + n) rest) 0 s
  end.

Definition match_ (p : pattern) (s : bytes) : bool :=
  run (ignorecase p) (items p) 0 s.

(** The pattern runs up to a [$], and the byte [x], which is not the line
    feed, is in none of its classes. *)
Fixpoint avoids (icase : bool) (x : byte) (r : list item) : bool :=
  match r with
  | [] => false
  | Eol :: _ => negb (Byte.eqb x "010")
  | Bol :: r' => avoids icase x r'
  | Rep cls _ _ :: r' => negb (in_class icase cls x) && avoids icase x r'
  end.

Definition one (cls : list cset) : item := Rep cls 1 (Some 1%nat).
Definition plus (cls : list cset) : item := Rep cls 1 None.

End Re.

(** ** What the modules import from outside the two files

    [lib/util.py] is outside the two files: its three functions are taken as
    they are declared ([decode(bytes) -> text], [encode(text) -> bytes],
    [clean_encoding(bytes) -> bytes]).  *)

Class Util := {
  decode : bytes → str;
  encode : str → bytes;
  clean_encoding : bytes → bytes
}.

(** Of the Python runtime: [base64.b64decode] (lenient decoding, whose result
    is [None] where it raises [binascii.Error]) and the built-in [hash] on
    bytes objects.  *)

Class Runtime := {
  b64decode : bytes → option bytes;
  builtin_hash : bytes → Z
}.

(** ** lib/validation.py *)

Module validation.
Import Py Re.

(** [rb'^([A-Z0-9_\-\.\+]+)@([A-Z0-9_\-\.]+)\.([A-Z]{2,8})$', re.I] *)
Definition email_regex_bytes : pattern :=
  compile
    [ Bol;
      plus [Range "A" "Z"; Range "0" "9"; Lit "_"; Lit "-"; Lit "."; Lit "+"];
      one [Lit "@"];
      plus [Range "A" "Z"; Range "0" "9"; Lit "_"; Lit "-"; Lit "."];
      one [Lit "."];
      Rep [Range "A" "Z"] 2 (Some 8%nat);
      Eol ]
    true.

(** [rb'[a-f0-9]{20,}', re.I] *)
Definition hash_regex : pattern :=
  compile [ Rep [Range "a" "f"; Range "0" "9"] 20 None ] true.

(** [rb'\$.{1,13}\$[a-z0-9:/\.]{20,}', re.I] *)
Definition extended_hash_regex : pattern :=
  compile
    [ one [Lit "$"];
      Rep [Dot] 1 (Some 13%nat);
      one [Lit "$"];
      Rep [Range "a" "z"; Range "0" "9"; Lit ":"; Lit "/"; Lit "."] 20 None ]
    true.

(** On a bytes object the text pattern raises [TypeError] and the bytes
    pattern decides. *)
Definition is_email (email : bytes) : bool :=
  if (128 <? length email)%nat then false
  else if match_ email_regex_bytes email then true
  else false.

(** [rb'^(.+)@(.+)\.(.+)'] *)
Definition fuzzy_email_regex_bytes : pattern :=
  compile
    [ Bol; plus [Dot]; one [Lit "@"]; plus [Dot]; one [Lit "."]; plus [Dot] ]
    false.

(** As for [is_email], the bytes pattern decides on a bytes object. *)
Definition is_fuzzy_email (email : bytes) : bool :=
  if (128 <? length email)%nat then false
  else if match_ fuzzy_email_regex_bytes email then true
  else false.

Section is_hash.
Context `{Runtime}.

Definition is_hash (s : bytes) : bool :=
  if (10 <? length s)%nat && endswith s (b "=") then
    match b64decode s with
    | Some decoded => true
    | None => false
    end
  else if match_ hash_regex s then true
  else if (23 <=? length s)%nat && match_ extended_hash_regex s then true
  else false.

End is_hash.

End validation.

(** ** Standard encodings: SHA-256 (FIPS 180-4) and Base64 (RFC 4648) *)

Module hashlib.
Local Open Scope Z_scope.

Definition wrap (x : Z) : Z := x mod 2 ^ 32.
Definition add32 (x y : Z) : Z := wrap (x + y).
Definition rotr (n x : Z) : Z :=
  Z.lor (Z.shiftr x n) (wrap (Z.shiftl x (32 - n))).

Definition Ch (x y z : Z) : Z :=
  Z.lxor (Z.land x y) (Z.land (wrap (Z.lnot x)) z).
Definition Maj (x y z : Z) : Z :=
  Z.lxor (Z.lxor (Z.land x y) (Z.land x z)) (Z.land y z).
Definition Sigma0 (x : Z) : Z := Z.lxor (Z.lxor (rotr 2 x) (rotr 13 x)) (rotr 22 x).
Definition Sigma1 (x : Z) : Z := Z.lxor (Z.lxor (rotr 6 x) (rotr 11 x)) (rotr 25 x).
Definition sigma0 (x : Z) : Z := Z.lxor (Z.lxor (rotr 7 x) (rotr 18 x)) (Z.shiftr x 3).
Definition sigma1 (x : Z) : Z := Z.lxor (Z.lxor (rotr 17 x) (rotr 19 x)) (Z.shiftr x 10).

(** The constants of the standard: the first 32 bits of the fractional parts
    of the cube roots, and of the square roots, of the first primes. *)
Definition is_prime (n : Z) : bool :=
  forallb (λ d, negb (n mod Z.of_nat d =? 0)) (seq 2 (Z.to_nat n - 2)).

Definition primes : list Z :=
  List.filter is_prime (map Z.of_nat (seq 2 310)).

Definition cube_root (n : Z) : Z :=
  fold_left
    (λ r i, let c := r + 2 ^ Z.of_nat i in if c * c * c <=? n then c else r)
    (rev (seq 0 40)) 0.

Definition K : list Z :=
  Eval vm_compute in map (λ p, wrap (cube_root (p * 2 ^ 96))) (take 64 primes).

Definition H0 : list Z :=
  Eval vm_compute in map (λ p, wrap (Z.sqrt (p * 2 ^ 64))) (take 8 primes).

Definition byte_val (c : byte) : Z := Z.of_N (Byte.to_N c).
Definition val_byte (x : Z) : byte := Py.chr (Z.to_N (x mod 256)).

(** The message, a [1] bit, zero bits up to 56 modulo 64 bytes, and the bit
    length on 64 bits. *)
Definition pad (msg : list Z) : list Z :=
  let n := Z.of_nat (length msg) in
  let zeros := Z.to_nat ((55 - n) mod 64) in
  msg ++ [0x80] ++ repeat 0 zeros ++
  map (fun i => Z.shiftr (8 * n) (8 * (7 - Z.of_nat i)) mod 256) (seq 0 8).

Fixpoint words (bs : list Z) (fuel : nat) : list Z :=
  match fuel, bs with
  | S fuel', a :: b :: c :: d :: bs' =>
      (((a * 256 + b) * 256 + c) * 256 + d) :: words bs' fuel'
  | _, _ => []
  end.

Definition w_at (w : list Z) (i : nat) : Z := nth i w 0.

(** [W_t] for [t] from 16 to 63, the list growing at its end. *)
Fixpoint schedule (n : nat) (w : list Z) : list Z :=
  match n with
  | O => w
  | S n' =>
      let t := length w in
      schedule n'
        (w ++ [add32 (add32 (sigma1 (w_at w (t - 2))) (w_at w (t - 7)))
                     (add32 (sigma0 (w_at w (t - 15))) (w_at w (t - 16)))])
  end.

Definition round (st : list Z) (kw : Z * Z) : list Z :=
  match st with
  | [a; b; c; d; e; f; g; h] =>
      let t1 := add32 (add32 (add32 h (Sigma1 e)) (add32 (Ch e f g) (fst kw))) (snd kw) in
      let t2 := add32 (Sigma0 a) (Maj a b c) in
      [add32 t1 t2; a; b; c; add32 d t1; e; f; g]
  | _ => st
  end.

Definition compress (h : list Z) (block : list Z) : list Z :=
  let w := schedule 48 (words block 16) in
  let st := fold_left round (combine K w) h in
  map (fun p => add32 (fst p) (snd p)) (combine h st).

Fixpoint blocks (fuel : nat) (bs : list Z) (h : list Z) : list Z :=
  match fuel with
  | O => h
  | S fuel' =>
      match bs with
      | [] => h
      | _ => blocks fuel' (drop 64 bs) (compress h (take 64 bs))
      end
  end.

Definition word_bytes (x : Z) : list Z :=
  [Z.shiftr x 24 mod 256; Z.shiftr x 16 mod 256; Z.shiftr x 8 mod 256; x mod 256].

(** [hashlib.sha256(data).digest()] *)
Definition sha256 (data : bytes) : bytes :=
  let padded := pad (map byte_val data) in
  map val_byte (flat_map word_bytes (blocks (length padded) padded H0)).

End hashlib.

Module base64.

Definition alphabet : bytes :=
  Py.b "ABCDEFGHIJKLMNOPQRSTUVWXYZabcdefghijklmnopqrstuvwxyz0123456789+/".

Definition digit (n : N) : byte := nth (N.to_nat n) alphabet "="%byte.

(** [base64.b64encode(s)] *)
Fixpoint b64encode (s : bytes) : bytes :=
  match s with
  | [] => []
  | [x] =>
      let x := Py.ord x in
      [digit (x / 4); digit (x mod 4 * 16); "="%byte; "="%byte]
  | [x; y] =>
      let x := Py.ord x in let y := Py.ord y in
      [digit (x / 4); digit (x mod 4 * 16 + y / 16); digit (y mod 16 * 4); "="%byte]
  | x :: y :: z :: s' =>
      let x := Py.ord x in let y := Py.ord y in let z := Py.ord z in
      [digit (x / 4); digit (x mod 4 * 16 + y / 16);
       digit (y mod 16 * 4 + z / 64); digit (z mod 64)] ++ b64encode s'
  end.

End base64.

(** ** Exceptions *)

Inductive exn :=
| AccountCreationError
| UnboundLocalError.

Inductive result (A : Type) :=
| Ok (a : A)
| Raise (e : exn).
Arguments Ok {A} a.
Arguments Raise {A} e.

#[global] Instance result_bind : MBind result := λ A B f m,
  match m with
  | Ok a => f a
  | Raise e => Raise e
  end.

(** ** lib/account.py *)

Module account.
Import Py validation.

Record Account := mkAccount {
  email : bytes;
  username : bytes;
  password : bytes;
  hash : bytes;
  misc : bytes
}.

(** Truth value of a bytes object or a text. *)
Definition truthy {A} (s : list A) : bool :=
  match s with
  | [] => false
  | _ :: _ => true
  end.

Definition valid_email_chars : bytes :=
  b "abcdefghijklmnopqrstuvwxyz0123456789-_.+@".

Definition max_length_1 : nat := 128.
Definition max_length_2 : nat := 1000.

(** Lines 66-71: the loop that keeps the bytes of the allow-set, [c] being
    the one-byte slice [email[i:i+1]]. *)
Definition strip_invalid (email : bytes) : bytes :=
  fold_left
    (fun self_email c =>
       if contains valid_email_chars [c] then self_email ++ [c] else self_email)
    (lower (strip whitespace email)) [].

(** Lines 66-77. *)
Definition cleanup (email username password _hash misc : bytes) : Account :=
  {| email := strip_invalid email;
     username := translate_delete [ "'"%byte; "\"%byte ] (strip whitespace username);
     misc := strip [ "013"%byte; "010"%byte ] misc;
     password := strip [ "013"%byte; "010"%byte ] password;
     hash := strip [ "013"%byte; "010"%byte ] _hash |}.

(** Lines 80-90. *)
Definition resolve_email (strict : bool) (self : Account) : result Account :=
  if negb (truthy (email self)) then
    if is_email (username self) then
      Ok {| email := lower (username self); username := [];
            password := password self; hash := hash self; misc := misc self |}
    else Ok self
  else if negb (is_email (email self)) then
    if strict then Raise AccountCreationError
    else if negb (truthy (username self)) then
      Ok {| email := []; username := email self;
            password := password self; hash := hash self; misc := misc self |}
    else Ok self
  else Ok self.

Section with_runtime.
Context `{Runtime}.

(** Lines 93-95; the test is on the argument [_hash]. *)
Definition password_to_hash (_hash : bytes) (self : Account) : Account :=
  if negb (truthy _hash) && truthy (password self) then
    if is_hash (password self) then
      {| email := email self; username := username self;
         password := []; hash := password self; misc := misc self |}
    else self
  else self.

(** Lines 98-99. *)
Definition password_to_misc (self : Account) : Account :=
  if negb (truthy (misc self)) && (100 <=? length (password self))%nat then
    {| email := email self; username := username self;
       password := []; hash := hash self; misc := password self |}
  else self.

(** Line 104, the condition under the [not]. *)
Definition enough (self : Account) : bool :=
  truthy (email self) ||
  (truthy (username self) &&
   (truthy (password self) || truthy (misc self) || truthy (hash self))).

(** Lines 66-99: the fields as the validity test of line 104 finds them. *)
Definition normalize (email username password _hash misc : bytes)
    (strict : bool) : result Account :=
  self ← resolve_email strict (cleanup email username password _hash misc);
  Ok (password_to_misc (password_to_hash _hash self)).

Context `{Util}.

(** Lines 109-113. *)
Definition truncate (self : Account) : Account :=
  {| email := slice_last max_length_1 (clean_encoding (email self));
     username := slice_to max_length_1 (clean_encoding (username self));
     password := slice_to max_length_1 (clean_encoding (password self));
     hash := slice_to max_length_2 (clean_encoding (hash self));
     misc := slice_to max_length_2 (clean_encoding (misc self)) |}.

(** [Account(email, username, password, _hash, misc, strict)] *)
Definition __init__ (email username password _hash misc : bytes)
    (strict : bool) : result Account :=
  self ← normalize email username password _hash misc strict;
  if negb (enough self) then Raise AccountCreationError
  else Ok (truncate self).

(** The property [split_email]; the two-element list is a pair.  Unpacking
    fewer than two parts raises [ValueError]. *)
Definition split_email (self : Account) : bytes * bytes :=
  match slice_to 2 (split Byte.eqb "@"%byte (email self)) with
  | [email; domain] => (email, domain)
  | _ => (email self, [])
  end.

(** The property [bytes], with its default delimiter. *)
Definition bytes_ (self : Account) : bytes :=
  join [ "000"%byte ]
    [email self; username self; password self; hash self; misc self].

Definition to_object_id (self : Account) : str :=
  let '(domain_chunk, account_hash) :=
    if truthy (email self) then
      let '(email, domain) := split_email self in
      let domain_chunk := decode (rev domain) in
      let email_hash :=
        decode (base64.b64encode (slice_to 6 (hashlib.sha256 email))) in
      let account_hash :=
        email_hash ++
        decode (base64.b64encode (slice_to 6 (hashlib.sha256 (bytes_ self)))) in
      (domain_chunk, account_hash)
    else
      let account_hash :=
        decode (base64.b64encode (slice_to 12 (hashlib.sha256 (bytes_ self)))) in
      (u "", account_hash)
  in
  join (u "|") [domain_chunk; account_hash].

(** The property [document] ([id_only] is [False]); [decode] being total,
    the handler of [ValueError] is not entered. *)
Definition document (self : Account) : gmap string str :=
  let doc : gmap string str := ∅ in
  let doc := <[ "_id"%string := to_object_id self ]> doc in
  let doc := if truthy (email self)
             then <[ "e"%string := decode (fst (split_email self)) ]> doc else doc in
  let doc := if truthy (username self)
             then <[ "u"%string := decode (username self) ]> doc else doc in
  let doc := if truthy (password self)
             then <[ "p"%string := decode (password self) ]> doc else doc in
  let doc := if truthy (hash self)
             then <[ "h"%string := decode (hash self) ]> doc else doc in
  let doc := if truthy (misc self)
             then <[ "m"%string := decode (misc self) ]> doc else doc in
  doc.

Definition _if_key_exists (d : gmap string str) (k : string) : bytes :=
  match d !! k with
  | Some v => encode v
  | None => []
  end.

(** [from_document]: a missing key is [KeyError]; the handler of
    [UnicodeEncodeError] reads the local [email] that was never assigned. *)
Definition from_document (document : gmap string str) : result Account :=
  email ←
    match document !! "e"%string, document !! "_id"%string with
    | Some e, Some _id =>
        match encode_utf8 (e ++ u "@" ++ rev (hd [] (split N.eqb 124 _id))) with
        | Some email => Ok email
        | None => Raise UnboundLocalError
        end
    | _, _ => Ok []
    end;
  let username := _if_key_exists document "u" in
  let password := _if_key_exists document "p" in
  let _hash := _if_key_exists document "h" in
  let misc := _if_key_exists document "m" in
  __init__ email username password _hash misc false.

(** The property [json]; [_id] is a text already. *)
Definition json (self : Account) : gmap string str :=
  <[ "i"%string := to_object_id self ]>
  (<[ "e"%string := decode (email self) ]>
  (<[ "u"%string := decode (username self) ]>
  (<[ "p"%string := decode (password self) ]>
  (<[ "h"%string := decode (hash self) ]>
  (<[ "m"%string := decode (misc self) ]> ∅))))).

Definition __repr__ (self : Account) : bytes :=
  if truthy (username self) then username self else email self.

(** [__hash__] and [__eq__] *)
Definition __hash__ (self : Account) : Z := builtin_hash (bytes_ self).

Definition __eq__ (self other : Account) : bool :=
  if Z.eqb (__hash__ self) (__hash__ other) then true else false.

End with_runtime.

(** The class [AccountMetadata]; [str_] is [str] on the sources. *)
Record AccountMetadata (Source : Type) := mkAccountMetadata {
  sources : list Source
}.
Arguments sources {Source} _.

Definition AccountMetadata_str {Source} (str_ : Source → str)
    (self : AccountMetadata Source) : str :=
  u "" ++ join [10] (map (λ source, u " |- " ++ str_ source) (sources self)).

Definition AccountMetadata_iter {Source} (self : AccountMetadata Source)
    : list Source := sources self.

Definition AccountMetadata_len {Source} (self : AccountMetadata Source) : nat :=
  length (sources self).

End account.

(** ** The properties in the words of the specification *)

Module Spec.
Import Py validation account.

(** The part of [s] before, and after, the first [sep]. *)
Fixpoint before (sep : byte) (s : bytes) : bytes :=
  match s with
  | [] => []
  | c :: s' => if Byte.eqb c sep then [] else c :: before sep s'
  end.

Fixpoint after (sep : byte) (s : bytes) : bytes :=
  match s with
  | [] => []
  | c :: s' => if Byte.eqb c sep then s' else after sep s'
  end.

Definition has (sep : byte) (s : bytes) : bool :=
  existsb (λ c, Byte.eqb c sep) s.

(** The email "split at the first [@] into local and domain". *)
Definition local_part (email : bytes) : bytes := before "@" email.
Definition domain_after_first_at (email : bytes) : bytes := after "@" email.

(** The domain as far as a second [@]. *)
Definition domain_part (email : bytes) : bytes := before "@" (after "@" email).

Definition fingerprint `{Util} (n : nat) (data : bytes) : str :=
  decode (base64.b64encode (take n (hashlib.sha256 data))).

Definition nul_joined (self : Account) : bytes :=
  email self ++ [ "000"%byte ] ++ username self ++ [ "000"%byte ] ++
  password self ++ [ "000"%byte ] ++ hash self ++ [ "000"%byte ] ++ misc self.

(** The identifier with a given reading of "domain". *)
Definition identifier `{Util} (domain_of : bytes → bytes) (self : Account) : str :=
  match email self with
  | [] => u "|" ++ fingerprint 12 (nul_joined self)
  | _ :: _ =>
      decode (rev (domain_of (email self))) ++ u "|" ++
      fingerprint 6 (local_part (email self)) ++ fingerprint 6 (nul_joined self)
  end.

Definition is_hex (c : byte) : bool :=
  in_range "0" "9" c || in_range "a" "f" c || in_range "A" "F" c.

Definition is_digest_char (c : byte) : bool :=
  in_range "a" "z" c || in_range "A" "Z" c || in_range "0" "9" c ||
  mem c (b ":/.").

(** [s] begins with 20 hexadecimal characters. *)
Definition hex_prefix (s : bytes) : bool :=
  (20 <=? length s)%nat && forallb is_hex (take 20 s).

(** [s] contains 20 contiguous hexadecimal characters somewhere. *)
Fixpoint hex_run_anywhere (s : bytes) : bool :=
  hex_prefix s ||
  match s with
  | [] => false
  | _ :: s' => hex_run_anywhere s'
  end.

(** [$], [k] bytes other than a newline, [$], then 20 digest characters. *)
Definition scheme_shape_at (k : nat) (s : bytes) : bool :=
  match s with
  | c0 :: r =>
      Byte.eqb c0 "$" && (k <=? length r)%nat &&
      forallb (λ c, negb (Byte.eqb c "010")) (take k r) &&
      match drop k r with
      | c1 :: t =>
          Byte.eqb c1 "$" && (20 <=? length t)%nat &&
          forallb is_digest_char (take 20 t)
      | [] => false
      end
  | [] => false
  end.

Definition scheme_shape (s : bytes) : bool :=
  existsb (λ k, scheme_shape_at k s) (seq 1 13).

(** The ordered heuristic, with the hexadecimal test given as a parameter. *)
Definition is_hash_by `{Runtime} (hex_test : bytes → bool) (s : bytes) : bool :=
  if (10 <? length s)%nat && endswith s (b "=") then
    bool_decide (is_Some (b64decode s))
  else hex_test s || ((23 <=? length s)%nat && scheme_shape s).

Definition allowed (c : byte) : bool := mem c valid_email_chars.

(** [b'\r\n'], the bytes stripped from the password, the hash and the note. *)
Abbreviation crlf := [ "013"%byte; "010"%byte ].

Definition is_ascii (c : byte) : bool := ord c <? 128.

(** No NUL byte in the four fields that are followed by the delimiter. *)
Definition nul_free (self : Account) : Prop :=
  ("000"%byte ∉ email self) ∧ ("000"%byte ∉ username self) ∧
  ("000"%byte ∉ password self) ∧ ("000"%byte ∉ hash self).

(** Every field matches exactly. *)
Definition same_fields (self other : Account) : Prop :=
  email self = email other ∧ username self = username other ∧
  password self = password other ∧ hash self = hash other ∧
  misc self = misc other.

(** The classes of the email pattern, with both cases. *)
Definition is_letter (c : byte) : bool :=
  in_range "a" "z" c || in_range "A" "Z" c.

Definition local_char (c : byte) : bool :=
  is_letter c || in_range "0" "9" c || mem c (b "_-.+").

Definition domain_char (c : byte) : bool :=
  is_letter c || in_range "0" "9" c || mem c (b "_-.").

Definition not_newline (c : byte) : bool := negb (Byte.eqb c "010").

(** [local@domain.tld], with at most a final line feed after it. *)
Definition email_shape (s : bytes) : Prop :=
  ∃ local domain tld tail,
    s = local ++ b "@" ++ domain ++ b "." ++ tld ++ tail ∧
    local ≠ [] ∧ forallb local_char local = true ∧
    domain ≠ [] ∧ forallb domain_char domain = true ∧
    (2 ≤ length tld ≤ 8)%nat ∧ forallb is_letter tld = true ∧
    (tail = [] ∨ tail = [ "010"%byte ]).

(** Something, [@], something, a dot, something, on one line; anything may
    follow. *)
Definition fuzzy_shape (s : bytes) : Prop :=
  ∃ x y z rest,
    s = x ++ b "@" ++ y ++ b "." ++ z ++ rest ∧
    x ≠ [] ∧ forallb not_newline x = true ∧
    y ≠ [] ∧ forallb not_newline y = true ∧
    z ≠ [] ∧ forallb not_newline z = true.

(** An allow-set byte or a line feed. *)
Definition email_byte (c : byte) : bool := allowed c || Byte.eqb c "010".

(** No element of [p] is the separator. *)
Definition sep_free {A} (eqb : A → A → bool) (sep : A) (p : list A) : bool :=
  forallb (λ c, negb (eqb c sep)) p.

(** The first test of [is_hash] applies. *)
Definition padded (s : bytes) : bool :=
  (10 <? length s)%nat && endswith s (b "=").

Definition is_surrogate (c : N) : bool := (55296 <=? c) && (c <=? 57343).

Definition base64_char (c : byte) : bool := mem c base64.alphabet.

(** The validity test on a record, field by field. *)
Definition gate (self : Account) : Prop :=
  email self ≠ [] ∨
  (username self ≠ [] ∧
   (password self ≠ [] ∨ hash self ≠ [] ∨ misc self ≠ [])).

End Spec.

(** ** An instance of the imported functions, for the examples *)

Module Sample.
Import Py.

Definition digit_value (c : byte) : option N :=
  if in_range "A" "Z" c then Some (ord c - 65)
  else if in_range "a" "z" c then Some (ord c - 71)
  else if in_range "0" "9" c then Some (ord c + 4)
  else if Byte.eqb c "+" then Some 62
  else if Byte.eqb c "/" then Some 63
  else None.

(** Lenient scanning: bytes outside the alphabet are skipped, padding after
    two or three digits of a group ends the data, and data that stops inside
    a group is an error. *)
Fixpoint scan (s : bytes) (quad_pos pads : nat) (acc : list N) : option (list N) :=
  match s with
  | [] => if (quad_pos =? 0)%nat then Some acc else None
  | c :: s' =>
      if Byte.eqb c "=" then
        if (2 <=? quad_pos)%nat && (4 <=? quad_pos + S pads)%nat then Some acc
        else scan s' quad_pos (if (2 <=? quad_pos)%nat then S pads else pads) acc
      else
        match digit_value c with
        | None => scan s' quad_pos pads acc
        | Some v => scan s' ((quad_pos + 1) mod 4)%nat 0%nat (acc ++ [v])
        end
  end.

Fixpoint unpack (ds : list N) : bytes :=
  match ds with
  | x :: y :: z :: w :: r =>
      [chr (x * 4 + y / 16); chr (y mod 16 * 16 + z / 4); chr (z mod 4 * 64 + w)]
      ++ unpack r
  | [x; y; z] => [chr (x * 4 + y / 16); chr (y mod 16 * 16 + z / 4)]
  | [x; y] => [chr (x * 4 + y / 16)]
  | _ => []
  end.

Definition lenient_b64decode (s : bytes) : option bytes :=
  unpack <$> scan s 0 0 [].

(** A multiplicative hash on 64 bits. *)
Definition fold_hash (s : bytes) : Z :=
  fold_left (λ h c, Z.lxor (h * 1000003) (Z.of_N (ord c)) mod 2 ^ 64)%Z s 0%Z.

#[export] Instance runtime : Runtime :=
  {| b64decode := lenient_b64decode; builtin_hash := fold_hash |}.

(** Bytes read as Latin-1, text written as UTF-8 with [?] for a surrogate. *)
Definition latin1_decode (s : bytes) : str := map ord s.
Definition utf8_replace (t : str) : bytes :=
  flat_map (λ c, default [ "?"%byte ] (utf8_char c)) t.

#[export] Instance util : Util :=
  {| decode := latin1_decode;
     encode := utf8_replace;
     clean_encoding := λ s, utf8_replace (latin1_decode s) |}.



End Sample.

(** ** Facts about the pattern matcher *)

Module ReFacts.
Import Py Re.

Section rep.
Variables (p : byte → bool) (lo : nat) (hi : option nat).
Variable k : nat → bytes → bool.

(** Taking [m] more bytes after [n] respects the upper bound. *)
Definition fits (n m : nat) : Prop :=
  m = 0%nat ∨ match hi with Some h => (n + m ≤ h)%nat | None => True end.

Lemma rep_spec n s :
  rep p lo hi k n s = true ↔
  ∃ m, (m ≤ length s)%nat ∧ forallb p (take m s) = true ∧ fits n m ∧
       (lo ≤ n + m)%nat ∧ k (n + m)%nat (drop m s) = true.
Proof.
  revert n. induction s as [|c s IH]; intros n; simpl.
  - rewrite andb_true_iff, Nat.leb_le. split.
    + intros [Hlo Hk]. exists 0%nat. simpl. rewrite Nat.add_0_r.
      unfold fits. repeat split; auto.
    + intros (m & Hm & _ & _ & Hlo & Hk). simpl in Hm.
      assert (m = 0%nat) as -> by lia. rewrite Nat.add_0_r in *.
      rewrite drop_0 in Hk. auto.
  - rewrite orb_true_iff, !andb_true_iff, Nat.leb_le, IH. split.
    + intros [[[Hc Hb] (m & Hm & Hall & Hf & Hlo & Hk)] | [Hlo Hk]].
      * exists (S m). simpl. rewrite Hc, Hall.
        replace (n + S m)%nat with (S n + m)%nat by lia.
        repeat split; auto; try lia.
        unfold fits in *. right. destruct hi as [h|]; auto. simpl in Hb.
        apply Nat.ltb_lt in Hb. destruct Hf as [-> | Hf]; lia.
      * exists 0%nat. simpl. rewrite Nat.add_0_r.
        unfold fits. repeat split; auto. lia.
    + intros (m & Hm & Hall & Hf & Hlo & Hk). unfold fits in *.
      destruct m as [|m].
      * right. rewrite Nat.add_0_r in *. simpl in Hk. auto.
      * left. simpl in Hall, Hk, Hm. apply andb_true_iff in Hall as [Hc Hall].
        replace (n + S m)%nat with (S n + m)%nat in * by lia.
        split; [split; auto|].
        -- destruct hi as [h|]; auto. simpl. apply Nat.ltb_lt.
           destruct Hf as [Hf | Hf]; [discriminate | lia].
        -- exists m. repeat split; auto; try lia.
           destruct hi as [h|]; [|right; auto].
           destruct Hf as [Hf | Hf]; [discriminate | right; lia].
Qed.

End rep.

Lemma forallb_take_le {A} (q : A → bool) (m n : nat) (s : list A) :
  (n ≤ m)%nat → forallb q (take m s) = true → forallb q (take n s) = true.
Proof.
  revert m n. induction s as [|c s IH]; intros m n Hle.
  - destruct m, n; auto.
  - destruct n as [|n]; [auto|]. destruct m as [|m]; [lia|]. simpl.
    rewrite !andb_true_iff. intros [? ?]. split; auto. apply (IH m); [lia|auto].
Qed.

(** An open-ended repetition at the end of a pattern: the first [lo] bytes
    decide. *)
Lemma rep_open_last p lo s :
  rep p lo None (λ _ _, true) 0 s = true ↔
  (lo ≤ length s)%nat ∧ forallb p (take lo s) = true.
Proof.
  rewrite rep_spec. split.
  - intros (m & Hm & Hall & _ & Hlo & _). simpl in Hlo. split; [lia|].
    eapply forallb_take_le; eauto.
  - intros [Hlo Hall]. exists lo. unfold fits. simpl. repeat split; auto.
Qed.

End ReFacts.

(** ** lib/validation.py: the heuristic [is_hash] *)

Module ValidationFacts.
Import Py Re validation Spec ReFacts.

Lemma forallb_eq {A} (f g : A → bool) (l : list A) :
  (∀ x, f x = g x) → forallb f l = forallb g l.
Proof. intros E. induction l as [|x l IH]; simpl; [auto|]. by rewrite E, IH. Qed.

Lemma hex_class c :
  in_class true [Range "a" "f"; Range "0" "9"] c = is_hex c.
Proof. destruct c; reflexivity. Qed.

Lemma digest_class c :
  in_class true [Range "a" "z"; Range "0" "9"; Lit ":"; Lit "/"; Lit "."] c
  = is_digest_char c.
Proof. destruct c; reflexivity. Qed.

Lemma dollar_class c : in_class true [Lit "$"] c = Byte.eqb c "$".
Proof. destruct c; reflexivity. Qed.

Lemma dot_class c : in_class true [Dot] c = negb (Byte.eqb c "010").
Proof. destruct c; reflexivity. Qed.

(** Exactly one byte of a class. *)
Lemma rep_one p k s :
  rep p 1 (Some 1%nat) k 0 s =
  match s with
  | c :: r => p c && k 1%nat r
  | [] => false
  end.
Proof.
  destruct s as [|c r]; [reflexivity|]. simpl.
  rewrite orb_false_r, andb_true_r. f_equal.
  destruct r; simpl; [reflexivity|]. by rewrite andb_false_r.
Qed.

Lemma hash_regex_spec s : match_ hash_regex s = hex_prefix s.
Proof.
  unfold match_, hex_prefix, hash_regex. cbn [items ignorecase run].
  apply eq_true_iff_eq. rewrite rep_open_last, andb_true_iff, Nat.leb_le.
  by rewrite (forallb_eq _ _ _ hex_class).
Qed.

Lemma digest_tail t :
  rep (in_class true [Range "a" "z"; Range "0" "9"; Lit ":"; Lit "/"; Lit "."])
      20 None (λ _ _, true) 0 t
  = (20 <=? length t)%nat && forallb is_digest_char (take 20 t).
Proof.
  apply eq_true_iff_eq. rewrite rep_open_last, andb_true_iff, Nat.leb_le.
  by rewrite (forallb_eq _ _ _ digest_class).
Qed.

Lemma extended_hash_regex_spec s :
  match_ extended_hash_regex s = scheme_shape s.
Proof.
  unfold match_, scheme_shape, extended_hash_regex, one.
  cbn [items ignorecase run]. rewrite rep_one.
  apply eq_true_iff_eq. rewrite existsb_exists.
  destruct s as [|c0 r].
  { split; [discriminate|]. by intros (k & _ & ?). }
  rewrite dollar_class, andb_true_iff, rep_spec. split.
  - intros (Hc0 & m & Hm & Hall & Hf & Hlo & Hk).
    exists m. split.
    + apply in_seq. unfold fits in Hf. lia.
    + unfold scheme_shape_at. rewrite Hc0. simpl.
      rewrite (forallb_eq _ _ _ dot_class) in Hall. rewrite Hall.
      apply Nat.leb_le in Hm. rewrite Hm. simpl.
      rewrite rep_one in Hk. destruct (drop m r) as [|c1 t]; [discriminate|].
      by rewrite dollar_class, digest_tail, andb_assoc in Hk.
  - intros (m & Hin & Hat). apply in_seq in Hin.
    unfold scheme_shape_at in Hat.
    rewrite !andb_true_iff in Hat. destruct Hat as [[[Hc0 Hm] Hall] Hk].
    split; [auto|]. exists m. apply Nat.leb_le in Hm.
    rewrite (forallb_eq _ _ _ dot_class). unfold fits.
    repeat split; auto; try lia.
    rewrite rep_one. destruct (drop m r) as [|c1 t]; [discriminate|].
    by rewrite dollar_class, digest_tail, andb_assoc.
Qed.

Section is_hash.
Context `{Runtime}.

(** C2, as amended: [is_hash] is the ordered heuristic in which a value
    longer than 10 bytes that ends with [=] is a hash exactly when Base64
    decoding succeeds (a failure answers false at once), and any other value
    is a hash when it begins with 20 hexadecimal characters or, being at
    least 23 bytes long, begins with the [$scheme$digest] shape. *)
Theorem is_hash_ordered_heuristic (s : bytes) :
  is_hash s = is_hash_by hex_prefix s.
Proof.
  unfold is_hash, is_hash_by.
  rewrite hash_regex_spec, extended_hash_regex_spec.
  destruct ((10 <? length s)%nat && endswith s (b "=")).
  - destruct (b64decode s) as [d|].
    + symmetry. apply bool_decide_eq_true. by exists d.
    + symmetry. apply bool_decide_eq_false. by intros [d ?].
  - destruct (hex_prefix s); [reflexivity|].
    destruct ((23 <=? length s)%nat && scheme_shape s); reflexivity.
Qed.

Lemma is_hash_short (s : bytes) : (length s ≤ 10)%nat → is_hash s = false.
Proof.
  intros Hlen. unfold is_hash. rewrite hash_regex_spec. unfold hex_prefix.
  replace (10 <? length s)%nat with false by (symmetry; apply Nat.ltb_ge; lia).
  replace (20 <=? length s)%nat with false by (symmetry; apply Nat.leb_gt; lia).
  replace (23 <=? length s)%nat with false by (symmetry; apply Nat.leb_gt; lia).
  reflexivity.
Qed.

End is_hash.

(** C2, as stated, fails: 32 hexadecimal characters after two other bytes are
    a run of 20 hexadecimal characters in the value, and [is_hash] answers
    false. *)
Lemma is_hash_misses_inner_hex_run :
  let s := b "xx5f4dcc3b5aa765d61d8327deb882cf99" in
  endswith s (b "=") = false ∧
  hex_run_anywhere s = true ∧
  @is_hash_by Sample.runtime hex_run_anywhere s = true ∧
  @is_hash Sample.runtime s = false.
Proof. vm_compute. auto. Qed.

End ValidationFacts.

(** ** lib/account.py: the constructor *)

Module ConstructorFacts.
Import Py validation account Spec ValidationFacts.

Lemma truthy_true {A} (s : list A) : truthy s = true ↔ s ≠ [].
Proof. destruct s; simpl; split; congruence. Qed.

Lemma truthy_false {A} (s : list A) : truthy s = false ↔ s = [].
Proof. destruct s; simpl; split; congruence. Qed.

(** Lines 80-90 leave the password, the hash and the note alone. *)
Lemma resolve_email_rest strict self self' :
  resolve_email strict self = Ok self' →
  password self' = password self ∧ hash self' = hash self ∧
  misc self' = misc self.
Proof.
  unfold resolve_email. intros E.
  repeat match type of E with
         | context [if ?c then _ else _] => destruct c
         end; inversion E; subst; auto.
Qed.

Lemma resolve_email_strict self :
  email self ≠ [] → is_email (email self) = false →
  resolve_email true self = Raise AccountCreationError.
Proof.
  intros Hne Hbad. unfold resolve_email.
  apply truthy_true in Hne. by rewrite Hne, Hbad.
Qed.

(** Only the strict rejection makes lines 80-90 fail. *)
Lemma resolve_email_raise strict self e :
  resolve_email strict self = Raise e ↔
  e = AccountCreationError ∧ strict = true ∧ email self ≠ [] ∧
  is_email (email self) = false.
Proof.
  unfold resolve_email. rewrite <- truthy_true.
  destruct (truthy (email self)), (is_email (email self)), strict,
    (is_email (username self)), (truthy (username self)); simpl;
    split; try discriminate; try (intros (? & ? & ? & ?); discriminate);
    try (intros [= <-]; auto); try (intros (-> & _); reflexivity).
Qed.

Lemma resolve_email_valid strict self :
  is_email (email self) = true → resolve_email strict self = Ok self.
Proof.
  intros Hok. unfold resolve_email.
  destruct (email self) as [|c e] eqn:E; [discriminate|].
  simpl. by rewrite Hok.
Qed.

Section with_runtime.
Context `{Runtime}.

Lemma password_to_hash_email _hash self :
  email (password_to_hash _hash self) = email self ∧
  username (password_to_hash _hash self) = username self ∧
  misc (password_to_hash _hash self) = misc self.
Proof.
  unfold password_to_hash.
  destruct (negb (truthy _hash) && truthy (password self)); auto.
  destruct (is_hash (password self)); auto.
Qed.

Lemma password_to_misc_email self :
  email (password_to_misc self) = email self ∧
  username (password_to_misc self) = username self ∧
  hash (password_to_misc self) = hash self.
Proof.
  unfold password_to_misc.
  destruct (negb (truthy (misc self)) && (100 <=? length (password self))%nat); auto.
Qed.

(** Lines 93-95 with an empty [_hash] argument move a password that looks
    like a hash. *)
Lemma password_to_hash_moves self :
  password self ≠ [] → is_hash (password self) = true →
  password_to_hash [] self =
  {| email := email self; username := username self; password := [];
     hash := password self; misc := misc self |}.
Proof.
  intros Hne Hh. unfold password_to_hash. apply truthy_true in Hne.
  by rewrite Hne, Hh.
Qed.

(** With any other [_hash] argument they do nothing, whatever the cleaned
    hash field holds. *)
Lemma password_to_hash_blocked _hash self :
  _hash ≠ [] → password_to_hash _hash self = self.
Proof.
  intros Hne. unfold password_to_hash. apply truthy_true in Hne.
  by rewrite Hne.
Qed.

Lemma password_to_hash_not_a_hash _hash self :
  is_hash (password self) = false → password_to_hash _hash self = self.
Proof.
  intros Hh. unfold password_to_hash. rewrite Hh.
  by destruct (negb (truthy _hash) && truthy (password self)).
Qed.

Lemma password_to_misc_short self :
  (length (password self) < 100)%nat → password_to_misc self = self.
Proof.
  intros Hlen. unfold password_to_misc.
  replace (100 <=? length (password self))%nat with false
    by (symmetry; apply Nat.leb_gt; lia).
  by rewrite andb_false_r.
Qed.

Lemma password_to_misc_moves self :
  misc self = [] → (100 ≤ length (password self))%nat →
  password_to_misc self =
  {| email := email self; username := username self; password := [];
     hash := hash self; misc := password self |}.
Proof.
  intros Hm Hlen. unfold password_to_misc. rewrite Hm.
  apply Nat.leb_le in Hlen. by rewrite Hlen.
Qed.

Lemma bind_ok {A B} (a : A) (f : A → result B) : (Ok a ≫= f) = f a.
Proof. reflexivity. Qed.

Lemma enough_gate self : enough self = true ↔ gate self.
Proof.
  unfold enough, gate.
  rewrite !orb_true_iff, !andb_true_iff, !orb_true_iff, !truthy_true. tauto.
Qed.

(** C10: a value of at most 10 bytes is never taken for a hash, and the
    constructor leaves such a (cleaned) password in the password field and
    the cleaned hash argument in the hash field. *)
Theorem short_password_is_not_reclassified (s : bytes) :
  (length s ≤ 10)%nat →
  is_hash s = false ∧
  ∀ email username password _hash misc strict self,
    strip crlf password = s →
    normalize email username password _hash misc strict = Ok self →
    account.password self = s ∧ hash self = strip crlf _hash.
Proof.
  intros Hlen. split; [by apply is_hash_short|].
  intros email username password _hash misc strict self Hs.
  unfold normalize.
  destruct (resolve_email strict (cleanup email username password _hash misc))
    as [a|e] eqn:E; simpl; [|discriminate].
  apply resolve_email_rest in E as (Hp & Hh & _). simpl in Hp, Hh.
  rewrite Hs in Hp. intros [= <-].
  rewrite password_to_hash_not_a_hash
    by (rewrite Hp; by apply is_hash_short).
  rewrite password_to_misc_short by (rewrite Hp; lia).
  auto.
Qed.

Context `{Util}.

(** C4, as amended: in strict mode, an email that is non-empty and fails
    the strict predicate once trimmed, lower-cased and filtered to the
    allow-set makes the construction fail, whatever the other fields. *)
Theorem strict_rejects_malformed_filtered_email
    (email username password _hash misc : bytes) :
  strip_invalid email ≠ [] →
  is_email (strip_invalid email) = false →
  __init__ email username password _hash misc true = Raise AccountCreationError.
Proof.
  intros Hne Hbad. unfold __init__, normalize.
  by rewrite resolve_email_strict.
Qed.

(** C5, as amended: the construction fails exactly when strict mode rejects
    the filtered email or the validity test fails on the fields that lines
    66-99 produce; all-empty fields always fail; and a construction succeeds
    only on fields that pass the validity test. *)
Theorem construction_fails_exactly
    (email username password _hash misc : bytes) (strict : bool) :
  (__init__ email username password _hash misc strict = Raise AccountCreationError ↔
   (strict = true ∧ strip_invalid email ≠ [] ∧
    is_email (strip_invalid email) = false) ∨
   (∃ self, normalize email username password _hash misc strict = Ok self ∧
            ¬ gate self)) ∧
  __init__ [] [] [] [] [] strict = Raise AccountCreationError ∧
  (∀ r, __init__ email username password _hash misc strict = Ok r →
        ∃ self, normalize email username password _hash misc strict = Ok self ∧
                gate self).
Proof.
  split; [|split].
  - unfold __init__, normalize.
    destruct (resolve_email strict (cleanup email username password _hash misc))
      as [a|e] eqn:E; simpl.
    + destruct (enough _) eqn:G; simpl.
      * split; [discriminate|]. intros [(-> & Hne & Hbad) | (self & [= <-] & Hg)].
        -- by rewrite resolve_email_strict in E.
        -- by apply enough_gate in G.
      * split; [|auto]. intros _. right. eexists. split; [reflexivity|].
        rewrite <- enough_gate, G. discriminate.
    + apply resolve_email_raise in E as (-> & -> & Hne & Hbad). simpl in *.
      split; [intros _; left; auto | reflexivity].
  - destruct strict; reflexivity.
  - intros r. unfold __init__.
    destruct (normalize email username password _hash misc strict)
      as [a|e]; simpl; [|discriminate].
    destruct (enough a) eqn:G; simpl; [|discriminate].
    intros _. exists a. split; [reflexivity|]. by apply enough_gate.
Qed.



Lemma slice_to_nonempty {A} n (s : list A) :
  (0 < n)%nat → s ≠ [] → slice_to n s ≠ [].
Proof. destruct n, s; simpl; intros; try lia; congruence. Qed.

Lemma slice_last_nonempty {A} n (s : list A) :
  (0 < n)%nat → s ≠ [] → slice_last n s ≠ [].
Proof.
  intros Hn Hs Hnil. apply (f_equal length) in Hnil.
  unfold slice_last in Hnil. rewrite length_drop in Hnil. simpl in Hnil.
  destruct s; [congruence | simpl in Hnil; lia].
Qed.

Lemma slice_last_all {A} n (s : list A) :
  (length s ≤ n)%nat → slice_last n s = s.
Proof.
  intros Hlen. unfold slice_last.
  replace (length s - n)%nat with 0%nat by lia. apply drop_0.
Qed.

(** C6, as amended: when the cleaned email is valid, the cleaned note is
    empty, the cleaned password has at least 100 bytes and is not moved to
    the hash field (the hash argument is non-empty, or the password does not
    look like a hash), the record has an empty password and, as its note,
    the first 1000 bytes of the repaired password; the repair of the empty
    value is taken to be empty. *)
Theorem overlong_password_moves_to_misc
    (email username password _hash misc : bytes) (strict : bool) :
  clean_encoding [] = [] →
  is_email (strip_invalid email) = true →
  strip crlf misc = [] →
  (100 ≤ length (strip crlf password))%nat →
  _hash ≠ [] ∨ is_hash (strip crlf password) = false →
  ∃ r, __init__ email username password _hash misc strict = Ok r ∧
       account.password r = [] ∧
       account.misc r = take 1000 (clean_encoding (strip crlf password)).
Proof.
  intros Hnil Hvalid Hmisc Hlong Hkeep. unfold __init__, normalize.
  rewrite resolve_email_valid by exact Hvalid. rewrite bind_ok.
  assert (password_to_hash _hash (cleanup email username password _hash misc)
          = cleanup email username password _hash misc) as ->.
  { destruct Hkeep; [by apply password_to_hash_blocked
                    | by apply password_to_hash_not_a_hash]. }
  rewrite password_to_misc_moves by assumption. rewrite bind_ok.
  unfold enough. cbn [account.email cleanup].
  destruct (strip_invalid email) as [|c e]; [discriminate|].
  cbn [truthy orb negb].
  eexists. split; [reflexivity|]. unfold truncate.
  cbn [account.password account.misc cleanup slice_to].
  rewrite Hnil. auto.
Qed.


End with_runtime.

End ConstructorFacts.

(** ** The sample instance *)

Module SampleFacts.
Import Py Spec Sample.

Lemma utf8_replace_ascii (s : bytes) :
  forallb is_ascii s = true → utf8_replace (latin1_decode s) = s.
Proof.
  induction s as [|c s IH]; [reflexivity|]. simpl.
  rewrite andb_true_iff. intros [Hc Hs]. rewrite (IH Hs).
  destruct c; try discriminate Hc; reflexivity.
Qed.

Lemma utf8_replace_nonempty (s : bytes) :
  s ≠ [] → utf8_replace (latin1_decode s) ≠ [].
Proof.
  destruct s as [|c s]; [congruence|]. intros _. simpl.
  destruct c; discriminate.
Qed.

End SampleFacts.

(** ** lib/account.py: the identifier and equality *)

Module IdentityFacts.
Import Py account Spec Sample.

Lemma after_without sep s : has sep s = false → after sep s = [].
Proof.
  induction s as [|c s IH]; simpl; [auto|].
  destruct (Byte.eqb c sep); simpl; [discriminate | exact IH].
Qed.

Lemma before_without sep s : has sep s = false → before sep s = s.
Proof.
  induction s as [|c s IH]; simpl; [auto|].
  destruct (Byte.eqb c sep); simpl; [discriminate|].
  intros E. by rewrite IH.
Qed.

(** The first part of a split is what comes before the first separator; the
    other parts are the split of what comes after it. *)
Lemma split_before_after sep s :
  split Byte.eqb sep s =
  before sep s :: (if has sep s then split Byte.eqb sep (after sep s) else []).
Proof.
  induction s as [|c s IH]; simpl; [reflexivity|].
  destruct (Byte.eqb c sep); simpl; [reflexivity|].
  rewrite IH. reflexivity.
Qed.

Lemma split_email_parts self :
  split_email self = (local_part (email self), domain_part (email self)).
Proof.
  unfold split_email, local_part, domain_part.
  rewrite split_before_after.
  destruct (has "@" (email self)) eqn:E.
  - rewrite split_before_after. simpl.
    destruct (has "@" (after "@" (email self))); reflexivity.
  - simpl. by rewrite (after_without _ _ E), (before_without _ _ E).
Qed.

Lemma bytes_nul_joined self : bytes_ self = nul_joined self.
Proof. reflexivity. Qed.

Section identifier.
Context `{Util}.

(** C1, as amended: the identifier of a record with a non-empty email is
    the reversed domain, [|], and the Base64 fingerprints of the first 6
    bytes of SHA-256 of the local part and of the NUL-joined fields, where
    the local part is the email before its first [@] and the domain is what
    lies between the first [@] and the second one, or the end; with an
    empty email it is [|] and the fingerprint of the first 12 bytes. *)
Theorem to_object_id_formula (self : Account) :
  to_object_id self = identifier domain_part self.
Proof.
  unfold to_object_id, identifier, fingerprint, slice_to.
  rewrite split_email_parts, bytes_nul_joined.
  destruct (email self) as [|c e]; reflexivity.
Qed.

End identifier.

Lemma app_sep_inj {A} (sep : A) (a1 a2 r1 r2 : list A) :
  sep ∉ a1 → sep ∉ a2 → a1 ++ sep :: r1 = a2 ++ sep :: r2 →
  a1 = a2 ∧ r1 = r2.
Proof.
  revert a2. induction a1 as [|x a1 IH]; intros [|y a2] H1 H2 E; simpl in E.
  - by inversion E.
  - inversion E; subst. by apply not_elem_of_cons in H2 as [? _].
  - inversion E; subst. by apply not_elem_of_cons in H1 as [? _].
  - inversion E; subst.
    apply not_elem_of_cons in H1 as [_ H1]. apply not_elem_of_cons in H2 as [_ H2].
    destruct (IH a2 H1 H2) as [-> ->]; auto.
Qed.

(** Without NUL bytes in the delimited fields the concatenation determines
    the fields. *)
Lemma nul_joined_inj self other :
  nul_free self → nul_free other →
  nul_joined self = nul_joined other → same_fields self other.
Proof.
  intros (e1 & u1 & p1 & h1) (e2 & u2 & p2 & h2). unfold nul_joined. simpl.
  intros E.
  apply app_sep_inj in E as [Ee E]; [|assumption..].
  apply app_sep_inj in E as [Eu E]; [|assumption..].
  apply app_sep_inj in E as [Ep E]; [|assumption..].
  apply app_sep_inj in E as [Eh E]; [|assumption..].
  by repeat split.
Qed.

Lemma same_fields_nul_joined self other :
  same_fields self other → nul_joined self = nul_joined other.
Proof.
  intros (Ee & Eu & Ep & Eh & Em). unfold nul_joined.
  by rewrite Ee, Eu, Ep, Eh, Em.
Qed.

Section equality.
Context `{Runtime}.

(** C8, as amended: two records are equal exactly when the hashes of their
    NUL-joined concatenations are equal; records whose five fields match are
    equal; and equal records have matching fields when none of the four
    delimited fields holds a NUL byte and the hash separates the two
    concatenations. *)
Theorem eq_by_hash_of_nul_joined (self other : Account) :
  (__eq__ self other = true ↔ builtin_hash (nul_joined self) = builtin_hash (nul_joined other)) ∧
  (same_fields self other → __eq__ self other = true) ∧
  (nul_free self → nul_free other →
   (builtin_hash (nul_joined self) = builtin_hash (nul_joined other) →
    nul_joined self = nul_joined other) →
   __eq__ self other = true → same_fields self other).
Proof.
  assert (__eq__ self other = true ↔
          builtin_hash (nul_joined self) = builtin_hash (nul_joined other)) as Heq.
  { unfold __eq__, __hash__.
    rewrite (bytes_nul_joined self), (bytes_nul_joined other).
    destruct (Z.eqb_spec (builtin_hash (nul_joined self)) (builtin_hash (nul_joined other)));
      split; intros; congruence. }
  split; [exact Heq|]. split.
  - intros Hs. apply Heq. by rewrite (same_fields_nul_joined _ _ Hs).
  - intros Hn1 Hn2 Hinj He. apply nul_joined_inj; auto. apply Hinj, Heq, He.
Qed.

End equality.

(** C1, as stated, fails: this record, which the constructor builds, has two
    [@]; the identifier starts with the reversed [b], not with the reverse of
    everything after the first [@]. *)
Lemma identifier_domain_stops_at_second_at :
  let self := mkAccount (b "a@b@c") (b "bob") (b "x") [] [] in
  __init__ (b "a@b@c") (b "bob") (b "x") [] [] false = Ok self ∧
  domain_after_first_at (email self) = b "b@c" ∧
  to_object_id self = u "b|ypeBEsobq+d85nPX" ∧
  identifier domain_after_first_at self = u "c@b|ypeBEsobq+d85nPX" ∧
  to_object_id self ≠ identifier domain_after_first_at self.
Proof. vm_compute. repeat split; discriminate. Qed.

(** C8, as stated, fails: these two records, which the constructor builds,
    differ in two fields and have the same NUL-joined concatenation, hence
    are equal under every hash. *)
Lemma equal_records_with_different_fields :
  let r1 := mkAccount [] (b "a") [ "b"; "000"; "c" ]%byte [] [] in
  let r2 := mkAccount [] [ "a"; "000"; "b" ]%byte (b "c") [] [] in
  __init__ [] (username r1) (password r1) [] [] false = Ok r1 ∧
  __init__ [] (username r2) (password r2) [] [] false = Ok r2 ∧
  username r1 ≠ username r2 ∧
  password r1 ≠ password r2 ∧
  ∀ R : Runtime, @__eq__ R r1 r2 = true.
Proof.
  intros r1 r2. split; [reflexivity|]. split; [reflexivity|].
  split; [by vm_compute|]. split; [by vm_compute|].
  intros R. unfold __eq__, __hash__.
  replace (bytes_ r2) with (bytes_ r1) by reflexivity.
  by rewrite Z.eqb_refl.
Qed.

End IdentityFacts.

(** ** lib/account.py: the document and back *)

Module RoundTripFacts.
Import Py Re validation account Spec Sample.
Import ReFacts ValidationFacts ConstructorFacts IdentityFacts.

Lemma eqb_refl (c : byte) : Byte.eqb c c = true.
Proof. by apply byte_dec_lb. Qed.

Lemma has_app x (s t : bytes) : has x (s ++ t) = has x s || has x t.
Proof. apply existsb_app. Qed.

Lemma forallb_imp {A} (p q : A → bool) (l : list A) :
  (∀ c, p c = true → q c = true) → forallb p l = true → forallb q l = true.
Proof.
  intros Hpq. induction l as [|c l IH]; simpl; [auto|].
  rewrite !andb_true_iff. intros [? ?]. auto.
Qed.

Lemma forallb_rev {A} (p : A → bool) (l : list A) :
  forallb p l = true → forallb p (rev l) = true.
Proof.
  rewrite !forallb_forall. intros Hl c Hc. apply Hl. by apply in_rev.
Qed.

Lemma forallb_has (p : byte → bool) x (l : bytes) :
  p x = false → forallb p l = true → has x l = false.
Proof.
  intros Hx. induction l as [|c l IH]; simpl; [auto|].
  rewrite andb_true_iff. intros [Hc Hl]. rewrite (IH Hl), orb_false_r.
  destruct (Byte.eqb c x) eqn:E; [|reflexivity].
  apply byte_dec_bl in E. congruence.
Qed.

(** A pattern closed by [$] whose classes all exclude [x] only matches
    values without [x]. *)
Lemma run_avoids icase x r pos s :
  avoids icase x r = true → run icase r pos s = true → has x s = false.
Proof.
  revert pos s. induction r as [|it r IH]; intros pos s; simpl; [discriminate|].
  destruct it as [cls lo hi | | ].
  - rewrite andb_true_iff, negb_true_iff. intros [Hx Hr].
    rewrite rep_spec. intros (m & _ & Hall & _ & _ & Hk).
    rewrite <- (take_drop m s), has_app.
    rewrite (forallb_has _ _ _ Hx Hall). simpl. by apply (IH _ _ Hr Hk).
  - intros Hr. rewrite andb_true_iff. intros [_ Hk]. by apply (IH _ _ Hr Hk).
  - rewrite negb_true_iff. intros Hx. rewrite andb_true_iff. intros [He _].
    destruct s as [|c [|c' s]]; simpl in *; try discriminate; [reflexivity|].
    apply byte_dec_bl in He. subst c. rewrite orb_false_r.
    destruct (Byte.eqb "010" x) eqn:E; [|reflexivity].
    apply byte_dec_bl in E. subst x. discriminate.
Qed.

Lemma at_class c : in_class true [Lit "@"] c = Byte.eqb c "@".
Proof. destruct c; reflexivity. Qed.

(** A value that passes [is_email] has exactly one [@], and at most 128
    bytes. *)
Lemma is_email_parts (e : bytes) :
  is_email e = true →
  ∃ local domain, e = local ++ "@"%byte :: domain ∧
    has "@" local = false ∧ has "@" domain = false ∧ (length e ≤ 128)%nat.
Proof.
  unfold is_email. destruct (128 <? length e)%nat eqn:L; [discriminate|].
  apply Nat.ltb_ge in L.
  destruct (match_ email_regex_bytes e) eqn:M; [intros _ | discriminate].
  unfold match_, email_regex_bytes, plus, one in M.
  cbn [items ignorecase run] in M.
  apply andb_true_iff in M as [_ M].
  apply rep_spec in M as (m & _ & Hall & _ & _ & Hk).
  rewrite rep_one in Hk.
  destruct (drop m e) as [|c r] eqn:D; [discriminate|].
  apply andb_true_iff in Hk as [Hc Hrun].
  rewrite at_class in Hc. apply byte_dec_bl in Hc. subst c.
  exists (take m e), r. split; [|split; [|split]].
  - by rewrite <- D, take_drop.
  - by apply (forallb_has _ _ _ (eq_refl : _ "@"%byte = false) Hall).
  - apply (run_avoids true "@"
             [ Rep [Range "A" "Z"; Range "0" "9"; Lit "_"; Lit "-"; Lit "."] 1 None;
               Rep [Lit "."] 1 (Some 1%nat);
               Rep [Range "A" "Z"] 2 (Some 8%nat);
               Eol ] 0 r); [reflexivity | exact Hrun].
  - exact L.
Qed.

Lemma before_app sep (s r : bytes) :
  has sep s = false → before sep (s ++ sep :: r) = s.
Proof.
  induction s as [|c s IH]; simpl.
  - by rewrite eqb_refl.
  - destruct (Byte.eqb c sep); simpl; [discriminate|]. intros E. by rewrite IH.
Qed.

Lemma after_app sep (s r : bytes) :
  has sep s = false → after sep (s ++ sep :: r) = r.
Proof.
  induction s as [|c s IH]; simpl.
  - by rewrite eqb_refl.
  - destruct (Byte.eqb c sep); simpl; [discriminate | exact IH].
Qed.

Lemma allowed_ascii c : allowed c = true → is_ascii c = true.
Proof. destruct c; (discriminate || reflexivity). Qed.

Lemma allowed_not_bar c : allowed c = true → N.eqb (ord c) 124 = false.
Proof. destruct c; (discriminate || reflexivity). Qed.

Lemma allowed_not_space c : allowed c = true → negb (mem c whitespace) = true.
Proof. destruct c; (discriminate || reflexivity). Qed.

Lemma allowed_lower c : allowed c = true → lower_byte c = c.
Proof. destruct c; (discriminate || reflexivity). Qed.

Lemma allowed_contains c : contains valid_email_chars [c] = allowed c.
Proof. destruct c; reflexivity. Qed.

Lemma lstrip_kept chars (s : bytes) :
  forallb (λ c, negb (mem c chars)) s = true → lstrip chars s = s.
Proof.
  destruct s as [|c s]; simpl; [auto|].
  rewrite andb_true_iff, negb_true_iff. by intros [-> _].
Qed.

Lemma strip_kept chars (s : bytes) :
  forallb (λ c, negb (mem c chars)) s = true → strip chars s = s.
Proof.
  intros Hs. unfold strip, rstrip. rewrite (lstrip_kept _ _ Hs).
  rewrite lstrip_kept by (by apply forallb_rev). apply rev_involutive.
Qed.

(** The loop of lines 68-71 is a filter. *)
Lemma keep_loop (s acc : bytes) :
  fold_left
    (λ self_email c,
       if contains valid_email_chars [c] then self_email ++ [c] else self_email)
    s acc
  = acc ++ List.filter allowed s.
Proof.
  revert acc. induction s as [|c s IH]; intros acc; cbn [fold_left List.filter].
  - by rewrite app_nil_r.
  - rewrite IH, allowed_contains. destruct (allowed c); [|reflexivity].
    by rewrite <- app_assoc.
Qed.

Lemma filter_all {A} (p : A → bool) (l : list A) :
  forallb p l = true → List.filter p l = l.
Proof.
  induction l as [|c l IH]; simpl; [auto|].
  rewrite andb_true_iff. intros [-> Hl]. by rewrite IH.
Qed.

(** Lines 66-71 keep a value of allow-set bytes as it is. *)
Lemma strip_invalid_allowed (e : bytes) :
  forallb allowed e = true → strip_invalid e = e.
Proof.
  intros He. unfold strip_invalid.
  rewrite strip_kept by (eapply forallb_imp; [apply allowed_not_space | exact He]).
  assert (lower e = e) as ->.
  { unfold lower. clear -He. induction e as [|c e IH]; simpl in *; [auto|].
    apply andb_true_iff in He as [Hc He]. by rewrite (allowed_lower _ Hc), IH. }
  rewrite keep_loop. simpl. by apply filter_all.
Qed.

Lemma encode_utf8_ascii (s : bytes) :
  forallb is_ascii s = true → encode_utf8 (map ord s) = Some s.
Proof.
  induction s as [|c s IH]; simpl; [auto|].
  rewrite andb_true_iff. intros [Hc Hs]. rewrite (IH Hs).
  destruct c; try discriminate Hc; reflexivity.
Qed.

(** The first part of a split text. *)
Lemma split_hd_app (l rest : str) (sep : N) :
  forallb (λ c, negb (N.eqb c sep)) l = true →
  hd [] (split N.eqb sep (l ++ sep :: rest)) = l.
Proof.
  induction l as [|c l IH]; simpl.
  - by rewrite N.eqb_refl.
  - rewrite andb_true_iff, negb_true_iff. intros [-> Hl].
    specialize (IH Hl).
    destruct (split N.eqb sep (l ++ sep :: rest)); simpl in *; by subst.
Qed.

Lemma no_bar (s : bytes) :
  forallb allowed s = true →
  forallb (λ c, negb (N.eqb c 124)) (map ord s) = true.
Proof.
  induction s as [|c s IH]; simpl; [auto|].
  rewrite !andb_true_iff. intros [Hc Hs].
  by rewrite (allowed_not_bar _ Hc), IH.
Qed.

Section round_trip.
Context `{Runtime} `{Util}.

Lemma document_id self : document self !! "_id"%string = Some (to_object_id self).
Proof.
  unfold document.
  destruct (truthy (email self)), (truthy (username self)),
    (truthy (password self)), (truthy (hash self)), (truthy (misc self));
    by simplify_map_eq.
Qed.

Lemma document_e self :
  email self ≠ [] →
  document self !! "e"%string = Some (decode (fst (split_email self))).
Proof.
  intros Hne. apply truthy_true in Hne. unfold document. rewrite Hne.
  destruct (truthy (username self)),
    (truthy (password self)), (truthy (hash self)), (truthy (misc self));
    by simplify_map_eq.
Qed.

(** The constructor keeps a valid email of allow-set bytes as it is. *)
Lemma init_keeps_valid_email (e username password _hash misc : bytes) :
  (∀ s, forallb is_ascii s = true → clean_encoding s = s) →
  is_email e = true → forallb allowed e = true →
  ∃ r, __init__ e username password _hash misc false = Ok r ∧ email r = e.
Proof.
  intros Hclean Hvalid Hall.
  destruct (is_email_parts _ Hvalid) as (local & domain & E & _ & _ & Hlen).
  set (c := cleanup e username password _hash misc).
  assert (email c = e) as Hc by (by apply strip_invalid_allowed).
  unfold __init__, normalize. fold c.
  rewrite resolve_email_valid by (by rewrite Hc). rewrite !bind_ok.
  set (a := password_to_misc (password_to_hash _hash c)).
  assert (email a = e) as Ha.
  { unfold a.
    destruct (password_to_misc_email (password_to_hash _hash c)) as [-> _].
    destruct (password_to_hash_email _hash c) as [-> _]. exact Hc. }
  assert (enough a = true) as ->.
  { unfold enough. rewrite Ha, E. by destruct local. }
  cbn [negb]. eexists. split; [reflexivity|].
  unfold truncate. cbn [email]. rewrite Ha.
  rewrite Hclean by (eapply forallb_imp; [apply allowed_ascii | exact Hall]).
  by apply slice_last_all.
Qed.

(** C3, as amended: for a record whose email passes the strict predicate
    and has allow-set bytes only, the record rebuilt from its document has
    the same email, which is the stored local part, [@], and the reversed
    domain chunk of the identifier; the codec is taken to leave ASCII values
    as they are. *)
Theorem round_trip_valid_email (self : Account) :
  (∀ s, forallb is_ascii s = true → decode s = map ord s) →
  (∀ s, forallb is_ascii s = true → clean_encoding s = s) →
  is_email (email self) = true →
  forallb allowed (email self) = true →
  ∃ r local chunk fp,
    document self !! "e"%string = Some (decode local) ∧
    document self !! "_id"%string = Some (decode chunk ++ u "|" ++ fp) ∧
    from_document (document self) = Ok r ∧
    email r = local ++ b "@" ++ rev chunk ∧
    email r = email self.
Proof.
  intros Hdecode Hclean Hvalid Hall.
  destruct (is_email_parts _ Hvalid) as (local & domain & E & Hl & Hd & _).
  assert (forallb allowed local = true ∧ forallb allowed domain = true)
    as [Hal Had].
  { rewrite E, forallb_app in Hall. cbn [forallb] in Hall.
    apply andb_true_iff in Hall as [? Hall].
    apply andb_true_iff in Hall as [_ ?]. auto. }
  assert (email self ≠ []) as Hne by (rewrite E; by destruct local).
  assert (local_part (email self) = local) as Hlp
    by (unfold local_part; rewrite E; by apply before_app).
  assert (domain_part (email self) = domain) as Hdp.
  { unfold domain_part. rewrite E, after_app by exact Hl.
    by apply before_without. }
  assert (∀ s, forallb allowed s = true → forallb is_ascii s = true) as Hascii
    by (intros s; apply forallb_imp, allowed_ascii).
  destruct (init_keeps_valid_email (email self)
              (_if_key_exists (document self) "u")
              (_if_key_exists (document self) "p")
              (_if_key_exists (document self) "h")
              (_if_key_exists (document self) "m") Hclean Hvalid Hall)
    as (r & Hr & Hemail).
  exists r, local, (rev domain),
    (fingerprint 6 local ++ fingerprint 6 (nul_joined self)).
  assert (document self !! "e"%string = Some (decode local)) as De.
  { rewrite document_e by exact Hne. by rewrite split_email_parts, Hlp. }
  assert (document self !! "_id"%string =
          Some (decode (rev domain) ++ u "|" ++
                fingerprint 6 local ++ fingerprint 6 (nul_joined self))) as Di.
  { rewrite document_id. unfold to_object_id.
    rewrite split_email_parts, Hdp, Hlp, bytes_nul_joined.
    destruct (email self); [congruence | reflexivity]. }
  split; [exact De|]. split; [exact Di|].
  assert (rev (rev domain) = domain) as Hrr by apply rev_involutive.
  split; [|split; [|exact Hemail]].
  - unfold from_document. rewrite De, Di.
    rewrite (Hdecode local) by auto.
    rewrite (Hdecode (rev domain)) by (by apply Hascii, forallb_rev).
    change (u "|" ++ fingerprint 6 local ++ fingerprint 6 (nul_joined self))
      with (124 :: fingerprint 6 local ++ fingerprint 6 (nul_joined self)).
    rewrite split_hd_app by (by apply no_bar, forallb_rev).
    rewrite <- map_rev, Hrr.
    change (u "@") with (map ord [ "@"%byte ]). rewrite <- !map_app.
    change (local ++ [ "@"%byte ] ++ domain) with (local ++ "@"%byte :: domain).
    rewrite <- E, encode_utf8_ascii by auto.
    rewrite bind_ok. exact Hr.
  - rewrite Hemail, Hrr. exact E.
Qed.

End round_trip.

(** C3, as stated, fails: the document of this record, which the constructor
    builds, keeps [a] and the chunk [b]; the rebuilt email is [a@b]. *)
Lemma round_trip_loses_second_at :
  let self := mkAccount (b "a@b@c") (b "bob") (b "x") [] [] in
  __init__ (b "a@b@c") (b "bob") (b "x") [] [] false = Ok self ∧
  from_document (document self)
  = Ok (mkAccount (b "a@b") (b "bob") (b "x") [] []) ∧
  email (mkAccount (b "a@b") (b "bob") (b "x") [] []) ≠ email self.
Proof. vm_compute. repeat split; discriminate. Qed.

(** An email without [@] comes back with one. *)
Example round_trip_adds_at :
  let self := mkAccount (b "abc") (b "bob") (b "x") [] [] in
  __init__ (b "abc") (b "bob") (b "x") [] [] false = Ok self ∧
  from_document (document self)
  = Ok (mkAccount (b "abc@") (b "bob") (b "x") [] []).
Proof. vm_compute. auto. Qed.

(** A username of one space is stripped on the way back, and the invalid
    email is then demoted to the username. *)
Example round_trip_demotes_email :
  let self := mkAccount (b "a@b") (b " ") (b "x") [] [] in
  __init__ (b "a@b") (b "' '") (b "x") [] [] false = Ok self ∧
  from_document (document self) = Ok (mkAccount [] (b "a@b") (b "x") [] []).
Proof. vm_compute. auto. Qed.

(** A promoted username may end with a line feed, which the rebuilt record
    loses. *)
Example round_trip_drops_line_feed :
  let self := mkAccount (b "a@b.com" ++ [ "010"%byte ]) [] (b "x") [] [] in
  __init__ [] (b "a@b.com" ++ [ "010"; "'" ]%byte) (b "x") [] [] false = Ok self ∧
  is_email (email self) = true ∧
  from_document (document self) = Ok (mkAccount (b "a@b.com") [] (b "x") [] []).
Proof. vm_compute. auto. Qed.

Lemma round_trip_witness :
  let self := mkAccount (b "john.doe@example.com") [] (b "hunter2") [] [] in
  (∀ s, forallb is_ascii s = true → decode s = map ord s) ∧
  (∀ s, forallb is_ascii s = true → clean_encoding s = s) ∧
  is_email (email self) = true ∧
  forallb allowed (email self) = true ∧
  ∃ r local chunk fp,
    document self !! "e"%string = Some (decode local) ∧
    document self !! "_id"%string = Some (decode chunk ++ u "|" ++ fp) ∧
    from_document (document self) = Ok r ∧
    email r = local ++ b "@" ++ rev chunk ∧
    email r = email self.
Proof.
  intros self.
  assert (∀ s, forallb is_ascii s = true → decode s = map ord s) as Hd
    by reflexivity.
  split; [exact Hd|]. split; [exact SampleFacts.utf8_replace_ascii|].
  split; [reflexivity|]. split; [reflexivity|].
  apply (round_trip_valid_email self Hd SampleFacts.utf8_replace_ascii);
    reflexivity.
Defined.

End RoundTripFacts.

(** ** The constructor on concrete inputs *)

Module ConstructorExamples.
Import Py validation account Spec Sample ConstructorFacts.

(** The end-to-end examples of the specification. *)
Example promote_username :
  __init__ (b "") (b "John.Doe@Example.com") (b "hunter2") (b "") (b "") false
  = Ok (mkAccount (b "john.doe@example.com") [] (b "hunter2") [] []).
Proof. reflexivity. Qed.

Example hashed_password :
  __init__ (b "") (b "bob") (b "5f4dcc3b5aa765d61d8327deb882cf99") (b "") (b "") false
  = Ok (mkAccount [] (b "bob") [] (b "5f4dcc3b5aa765d61d8327deb882cf99") []).
Proof. reflexivity. Qed.

(** C4, as stated, fails: the first email is non-empty and malformed (it has
    a space), its filtered form is a valid email, and strict construction
    succeeds; the second one is filtered to nothing, and strict construction
    succeeds on the other fields. *)
Lemma strict_accepts_malformed_raw_email :
  let email := b "bob smith@example.com" in
  email ≠ [] ∧ is_email email = false ∧
  __init__ email [] [] [] [] true
  = Ok (mkAccount (b "bobsmith@example.com") [] [] [] []) ∧
  is_email (b "!!!") = false ∧
  __init__ (b "!!!") (b "bob") (b "hunter2") [] [] true
  = Ok (mkAccount [] (b "bob") (b "hunter2") [] []).
Proof. vm_compute. split; [discriminate | repeat split; reflexivity]. Qed.

Lemma strict_rejects_witness :
  strip_invalid (b "Not An Email") ≠ [] ∧
  is_email (strip_invalid (b "Not An Email")) = false ∧
  __init__ (b "Not An Email") (b "bob") (b "hunter2") [] [] true
  = Raise AccountCreationError.
Proof.
  split; [vm_compute; discriminate|]. split; [reflexivity|].
  apply strict_rejects_malformed_filtered_email;
    [vm_compute; discriminate | reflexivity].
Defined.

(** C5, as stated, fails: strict mode rejects this input although its
    fields pass the validity test, which is never reached. *)
Lemma strict_failure_is_not_a_gate_failure :
  let self := cleanup (b "abc") (b "bob") (b "hunter2") [] [] in
  __init__ (b "abc") (b "bob") (b "hunter2") [] [] true = Raise AccountCreationError ∧
  normalize (b "abc") (b "bob") (b "hunter2") [] [] true
  = Raise AccountCreationError ∧
  enough self = true ∧
  normalize (b "abc") (b "bob") (b "hunter2") [] [] false = Ok self.
Proof. vm_compute. auto. Qed.

(** C6, as stated, fails: a password of 100 hexadecimal characters is moved
    to the hash field before its length is looked at, and the note stays
    empty. *)
Lemma overlong_hex_password_goes_to_hash :
  let password := repeat "a"%byte 100 in
  is_email (strip_invalid (b "a@b.com")) = true ∧
  strip crlf [] = [] ∧
  length (strip crlf password) = 100%nat ∧
  __init__ (b "a@b.com") [] password [] [] false
  = Ok (mkAccount (b "a@b.com") [] [] password []) ∧
  account.misc (mkAccount (b "a@b.com") [] [] password []) ≠ password.
Proof. vm_compute. repeat split; discriminate. Qed.

Lemma overlong_password_witness :
  let password := repeat "x"%byte 100 in
  clean_encoding [] = [] ∧
  is_email (strip_invalid (b "a@b.com")) = true ∧
  strip crlf [] = [] ∧
  (100 ≤ length (strip crlf password))%nat ∧
  (@nil byte ≠ [] ∨ is_hash (strip crlf password) = false) ∧
  ∃ r, __init__ (b "a@b.com") [] password [] [] true = Ok r ∧
       account.password r = [] ∧
       account.misc r = take 1000 (clean_encoding (strip crlf password)).
Proof.
  intros password.
  assert ((100 ≤ length (strip crlf password))%nat) as Hlen
    by (vm_compute; lia).
  split; [reflexivity|]. split; [reflexivity|]. split; [reflexivity|].
  split; [exact Hlen|]. split; [right; reflexivity|].
  apply overlong_password_moves_to_misc;
    [reflexivity | reflexivity | reflexivity | exact Hlen | right; reflexivity].
Defined.

(** C7 on a hash argument of one line feed: the cleaned hash field is
    empty, the password is non-empty and looks like a hash, and the record
    keeps it as its password, with an empty hash field. *)
Theorem line_feed_hash_blocks_reclassification :
  let password := b "5f4dcc3b5aa765d61d8327deb882cf99" in
  let _hash := [ "010"%byte ] in
  strip crlf _hash = [] ∧
  strip crlf password = password ∧
  is_hash password = true ∧
  __init__ [] (b "bob") password _hash [] false
  = Ok (mkAccount [] (b "bob") password [] []).
Proof. vm_compute. auto. Qed.



Lemma short_password_witness :
  (length (b "hunter2") ≤ 10)%nat ∧
  is_hash (b "hunter2") = false ∧
  ∀ email username password _hash misc strict self,
    strip crlf password = b "hunter2" →
    normalize email username password _hash misc strict = Ok self →
    account.password self = b "hunter2" ∧ hash self = strip crlf _hash.
Proof.
  assert ((length (b "hunter2") ≤ 10)%nat) as Hlen by (vm_compute; lia).
  split; [exact Hlen|].
  exact (short_password_is_not_reclassified (b "hunter2") Hlen).
Defined.

End ConstructorExamples.

(** ** Test vectors of the two encodings *)

Module EncodingExamples.
Import Py Sample.

Example sha256_constants :
  length hashlib.K = 64%nat ∧
  hd 0%Z hashlib.K = 0x428a2f98%Z ∧ last hashlib.K = Some 0xc67178f2%Z ∧
  hd 0%Z hashlib.H0 = 0x6a09e667%Z ∧ last hashlib.H0 = Some 0x5be0cd19%Z.
Proof. vm_compute. auto. Qed.

(** The digest of [abc] is [ba7816bf 8f01cfea ... f20015ad]. *)
Example sha256_abc :
  map hashlib.byte_val (hashlib.sha256 (b "abc")) =
  [ 0xba; 0x78; 0x16; 0xbf; 0x8f; 0x01; 0xcf; 0xea; 0x41; 0x41; 0x40; 0xde;
    0x5d; 0xae; 0x22; 0x23; 0xb0; 0x03; 0x61; 0xa3; 0x96; 0x17; 0x7a; 0x9c;
    0xb4; 0x10; 0xff; 0x61; 0xf2; 0x00; 0x15; 0xad ]%Z.
Proof. vm_compute. reflexivity. Qed.

(** A message of two blocks. *)
Example sha256_two_blocks :
  take 4 (map hashlib.byte_val (hashlib.sha256
    (b "abcdbcdecdefdefgefghfghighijhijkijkljklmklmnlmnomnopnopq")))
  = [ 0x24; 0x8d; 0x6a; 0x61 ]%Z.
Proof. vm_compute. reflexivity. Qed.

Example b64encode_padding :
  base64.b64encode (b "hello wo") = b "aGVsbG8gd28=" ∧
  base64.b64encode (b "hello w") = b "aGVsbG8gdw==" ∧
  base64.b64encode (b "hello ") = b "aGVsbG8g".
Proof. vm_compute. auto. Qed.

Example is_hash_examples :
  validation.is_hash (b "5f4dcc3b5aa765d61d8327deb882cf99") = true ∧
  validation.is_hash (b "hello") = false ∧
  validation.is_email (b "User@Example.COM") = true ∧
  validation.is_email (b "not-an-email") = false.
Proof. vm_compute. auto. Qed.

End EncodingExamples.

(** ** lib/validation.py: the email predicates *)

Module EmailFacts.
Import Py Re validation Spec Sample.
Import ReFacts ValidationFacts RoundTripFacts.

(** A successful repetition splits the value into the bytes it took and the
    rest. *)
Lemma rep_elim p lo hi k n (s : bytes) :
  rep p lo hi k n s = true →
  ∃ a rest, s = a ++ rest ∧ forallb p a = true ∧
    (lo ≤ n + length a)%nat ∧ fits hi n (length a) ∧
    k (n + length a)%nat rest = true.
Proof.
  rewrite rep_spec. intros (m & Hm & Hall & Hf & Hlo & Hk).
  exists (take m s), (drop m s).
  rewrite take_drop, length_take, Nat.min_l by exact Hm. auto.
Qed.

Lemma rep_intro p lo hi k n (a rest : bytes) :
  forallb p a = true → (lo ≤ n + length a)%nat → fits hi n (length a) →
  k (n + length a)%nat rest = true →
  rep p lo hi k n (a ++ rest) = true.
Proof.
  intros Hall Hlo Hf Hk. apply rep_spec. exists (length a).
  rewrite take_app_length, drop_app_length, length_app.
  repeat split; auto. lia.
Qed.

Lemma local_class c :
  in_class true [Range "A" "Z"; Range "0" "9"; Lit "_"; Lit "-"; Lit "."; Lit "+"] c
  = local_char c.
Proof. destruct c; reflexivity. Qed.

Lemma domain_class c :
  in_class true [Range "A" "Z"; Range "0" "9"; Lit "_"; Lit "-"; Lit "."] c
  = domain_char c.
Proof. destruct c; reflexivity. Qed.

Lemma letter_class c : in_class true [Range "A" "Z"] c = is_letter c.
Proof. destruct c; reflexivity. Qed.

Lemma period_class icase c : in_class icase [Lit "."] c = Byte.eqb c ".".
Proof. destruct icase, c; reflexivity. Qed.

Lemma at_class_any icase c : in_class icase [Lit "@"] c = Byte.eqb c "@".
Proof. destruct icase, c; reflexivity. Qed.

Lemma any_class c : in_class false [Dot] c = not_newline c.
Proof. destruct c; reflexivity. Qed.

Lemma at_end_cases (s : bytes) :
  at_end s = true ↔ s = [] ∨ s = [ "010"%byte ].
Proof.
  destruct s as [|c [|c' s]]; simpl; split; auto.
  - intros E. apply byte_dec_bl in E. subst. auto.
  - intros [E | E]; [discriminate|]. inversion E. reflexivity.
  - discriminate.
  - intros [E | E]; discriminate.
Qed.

Lemma nonempty_length {A} (l : list A) : l ≠ [] ↔ (1 ≤ length l)%nat.
Proof. destruct l; simpl; split; intros; try congruence; lia. Qed.

(** The strict pattern matches exactly the values of the shape
    [local@domain.tld], allowing for a final line feed. *)
Lemma email_pattern_shape (s : bytes) :
  match_ email_regex_bytes s = true ↔ email_shape s.
Proof.
  unfold match_, email_regex_bytes, plus, one, email_shape.
  cbn [items ignorecase run]. rewrite andb_true_iff. split.
  - intros [_ M].
    apply rep_elim in M as (x & r1 & -> & Hx & Hlx & _ & M).
    rewrite rep_one in M. destruct r1 as [|c1 r1]; [discriminate|].
    apply andb_true_iff in M as [Hc1 M].
    rewrite at_class in Hc1. apply byte_dec_bl in Hc1. subst c1.
    apply rep_elim in M as (y & r2 & -> & Hy & Hly & _ & M).
    rewrite rep_one in M. destruct r2 as [|c2 r2]; [discriminate|].
    apply andb_true_iff in M as [Hc2 M].
    rewrite period_class in Hc2. apply byte_dec_bl in Hc2. subst c2.
    apply rep_elim in M as (z & r3 & -> & Hz & Hlz & Hfz & M).
    apply andb_true_iff in M as [M _]. apply at_end_cases in M.
    exists x, y, z, r3.
    rewrite (forallb_eq _ _ _ local_class) in Hx.
    rewrite (forallb_eq _ _ _ domain_class) in Hy.
    rewrite (forallb_eq _ _ _ letter_class) in Hz.
    rewrite !nonempty_length. unfold fits in Hfz. simpl in *.
    repeat split; auto; lia.
  - intros (x & y & z & tail & -> & Hnx & Hx & Hny & Hy & Hlz & Hz & Htail).
    apply nonempty_length in Hnx, Hny. split; [reflexivity|].
    apply rep_intro;
      [by rewrite (forallb_eq _ _ _ local_class) | simpl; lia | right; exact I |].
    change (b "@" ++ y ++ b "." ++ z ++ tail)
      with ("@"%byte :: y ++ "."%byte :: z ++ tail).
    rewrite rep_one. apply andb_true_iff. split; [reflexivity|].
    apply rep_intro;
      [by rewrite (forallb_eq _ _ _ domain_class) | simpl; lia | right; exact I |].
    rewrite rep_one. apply andb_true_iff. split; [reflexivity|].
    apply rep_intro;
      [by rewrite (forallb_eq _ _ _ letter_class) | simpl; lia
      | right; simpl; lia |].
    apply andb_true_iff. split; [|reflexivity]. by apply at_end_cases.
Qed.

(** X1: [is_email] accepts exactly the values of at most 128 bytes made of
    a non-empty local part, [@], a non-empty domain, a dot and 2 to 8
    letters, possibly followed by one final line feed. *)
Theorem is_email_accepts_exactly (s : bytes) :
  is_email s = true ↔ (length s ≤ 128)%nat ∧ email_shape s.
Proof.
  unfold is_email. rewrite <- email_pattern_shape.
  destruct (128 <? length s)%nat eqn:L.
  - apply Nat.ltb_lt in L. split; [discriminate | lia].
  - apply Nat.ltb_ge in L.
    destruct (match_ email_regex_bytes s); split; auto.
    intros [_ ?]. discriminate.
Qed.

Lemma fuzzy_pattern_shape (s : bytes) :
  match_ fuzzy_email_regex_bytes s = true ↔ fuzzy_shape s.
Proof.
  unfold match_, fuzzy_email_regex_bytes, plus, one, fuzzy_shape.
  cbn [items ignorecase run]. rewrite andb_true_iff. split.
  - intros [_ M].
    apply rep_elim in M as (x & r1 & -> & Hx & Hlx & _ & M).
    rewrite rep_one in M. destruct r1 as [|c1 r1]; [discriminate|].
    apply andb_true_iff in M as [Hc1 M].
    rewrite at_class_any in Hc1. apply byte_dec_bl in Hc1. subst c1.
    apply rep_elim in M as (y & r2 & -> & Hy & Hly & _ & M).
    rewrite rep_one in M. destruct r2 as [|c2 r2]; [discriminate|].
    apply andb_true_iff in M as [Hc2 M].
    rewrite period_class in Hc2. apply byte_dec_bl in Hc2. subst c2.
    apply rep_elim in M as (z & r3 & -> & Hz & Hlz & _ & _).
    exists x, y, z, r3.
    rewrite (forallb_eq _ _ _ any_class) in Hx.
    rewrite (forallb_eq _ _ _ any_class) in Hy.
    rewrite (forallb_eq _ _ _ any_class) in Hz.
    rewrite !nonempty_length. simpl in *. repeat split; auto.
  - intros (x & y & z & rest & -> & Hnx & Hx & Hny & Hy & Hnz & Hz).
    apply nonempty_length in Hnx, Hny, Hnz. split; [reflexivity|].
    apply rep_intro;
      [by rewrite (forallb_eq _ _ _ any_class) | simpl; lia | right; exact I |].
    change (b "@" ++ y ++ b "." ++ z ++ rest)
      with ("@"%byte :: y ++ "."%byte :: z ++ rest).
    rewrite rep_one. apply andb_true_iff. split; [reflexivity|].
    apply rep_intro;
      [by rewrite (forallb_eq _ _ _ any_class) | simpl; lia | right; exact I |].
    rewrite rep_one. apply andb_true_iff. split; [reflexivity|].
    apply rep_intro;
      [by rewrite (forallb_eq _ _ _ any_class) | simpl; lia | right; exact I
      | reflexivity].
Qed.

(** X2: [is_fuzzy_email] accepts exactly the values of at most 128 bytes
    that begin with something, [@], something, a dot and something, none of
    the three parts being empty or holding a line feed; what follows is
    free. *)
Theorem is_fuzzy_email_accepts_exactly (s : bytes) :
  is_fuzzy_email s = true ↔ (length s ≤ 128)%nat ∧ fuzzy_shape s.
Proof.
  unfold is_fuzzy_email. rewrite <- fuzzy_pattern_shape.
  destruct (128 <? length s)%nat eqn:L.
  - apply Nat.ltb_lt in L. split; [discriminate | lia].
  - apply Nat.ltb_ge in L.
    destruct (match_ fuzzy_email_regex_bytes s); split; auto.
    intros [_ ?]. discriminate.
Qed.

Lemma local_not_newline c : local_char c = true → not_newline c = true.
Proof. destruct c; (discriminate || reflexivity). Qed.

Lemma domain_not_newline c : domain_char c = true → not_newline c = true.
Proof. destruct c; (discriminate || reflexivity). Qed.

Lemma letter_not_newline c : is_letter c = true → not_newline c = true.
Proof. destruct c; (discriminate || reflexivity). Qed.

(** X3: every value that [is_email] accepts, [is_fuzzy_email] accepts. *)
Theorem strict_email_is_fuzzy (s : bytes) :
  is_email s = true → is_fuzzy_email s = true.
Proof.
  unfold is_email, is_fuzzy_email.
  destruct (128 <? length s)%nat; [discriminate|].
  destruct (match_ email_regex_bytes s) eqn:M; [intros _ | discriminate].
  apply email_pattern_shape in M
    as (x & y & z & tail & -> & Hnx & Hx & Hny & Hy & Hlz & Hz & _).
  assert (fuzzy_shape (x ++ b "@" ++ y ++ b "." ++ z ++ tail)) as F.
  { exists x, y, z, tail. repeat split; auto.
    - eapply forallb_imp; [apply local_not_newline | exact Hx].
    - eapply forallb_imp; [apply domain_not_newline | exact Hy].
    - apply nonempty_length. lia.
    - eapply forallb_imp; [apply letter_not_newline | exact Hz]. }
  apply fuzzy_pattern_shape in F. by rewrite F.
Qed.

Lemma strict_email_is_fuzzy_witness :
  is_email (b "User@Example.COM") = true ∧
  is_fuzzy_email (b "User@Example.COM") = true.
Proof.
  assert (is_email (b "User@Example.COM") = true) as E by reflexivity.
  split; [exact E|]. exact (strict_email_is_fuzzy _ E).
Defined.

(** Matching is unchanged by a map on bytes that every class and the end
    test are blind to. *)
Lemma rep_map (f : byte → byte) p lo hi k k' n (s : bytes) :
  (∀ c, p (f c) = p c) → (∀ m t, k m (map f t) = k' m t) →
  rep p lo hi k n (map f s) = rep p lo hi k' n s.
Proof.
  intros Hp Hk. revert n. induction s as [|c s IH]; intros n; simpl.
  - pose proof (Hk n []) as E. simpl in E. by rewrite E.
  - pose proof (Hk n (c :: s)) as E. simpl in E. by rewrite Hp, IH, E.
Qed.

Lemma run_map icase (f : byte → byte) r pos (s : bytes) :
  (∀ cls lo hi, In (Rep cls lo hi) r →
     ∀ c, in_class icase cls (f c) = in_class icase cls c) →
  (∀ t, at_end (map f t) = at_end t) →
  run icase r pos (map f s) = run icase r pos s.
Proof.
  intros Hcls Hend. revert pos s.
  induction r as [|it r IH]; intros pos s; [reflexivity|].
  assert (∀ pos s, run icase r pos (map f s) = run icase r pos s) as IH'.
  { apply IH. intros cls lo hi Hin. apply (Hcls cls lo hi). by right. }
  destruct it as [cls lo hi | | ]; cbn [run].
  - apply rep_map; [apply (Hcls cls lo hi); by left | intros; apply IH'].
  - by rewrite IH'.
  - by rewrite Hend, IH'.
Qed.

Lemma at_end_lower (t : bytes) : at_end (map lower_byte t) = at_end t.
Proof.
  destruct t as [|c [|c' t]]; [reflexivity | | reflexivity].
  destruct c; reflexivity.
Qed.

Lemma email_pattern_lower (s : bytes) :
  match_ email_regex_bytes (lower s) = match_ email_regex_bytes s.
Proof.
  unfold match_, lower. apply run_map; [|apply at_end_lower].
  intros cls lo hi Hin c. simpl in Hin.
  repeat (destruct Hin as [Hin | Hin];
          [try discriminate Hin; inversion Hin; subst; destruct c; reflexivity|]).
  destruct Hin.
Qed.


End EmailFacts.

(** ** lib/validation.py: more on [is_hash] *)

Module HashFacts.
Import Py Re validation Spec Sample.
Import ReFacts ValidationFacts.

Lemma hex_prefix_app (s t : bytes) :
  hex_prefix s = true → hex_prefix (s ++ t) = true.
Proof.
  unfold hex_prefix. rewrite !andb_true_iff, !Nat.leb_le, length_app.
  intros [Hlen Hall]. split; [lia|]. by rewrite take_app_le.
Qed.

Lemma scheme_shape_at_app k (s t : bytes) :
  scheme_shape_at k s = true → scheme_shape_at k (s ++ t) = true.
Proof.
  destruct s as [|c0 r]; [discriminate|]. cbn [scheme_shape_at app].
  rewrite !andb_true_iff, !Nat.leb_le, length_app.
  intros [[[Hc0 Hk] Hall] Hrest].
  rewrite take_app_le, drop_app_le by exact Hk.
  destruct (drop k r) as [|c1 t']; [discriminate|]. cbn [app].
  repeat split; auto; [lia|].
  revert Hrest. rewrite !andb_true_iff, !Nat.leb_le, length_app.
  intros [[Hc1 Hlen] Hd]. repeat split; auto; [lia|]. by rewrite take_app_le.
Qed.

Lemma scheme_shape_app (s t : bytes) :
  scheme_shape s = true → scheme_shape (s ++ t) = true.
Proof.
  unfold scheme_shape. rewrite !existsb_exists.
  intros (k & Hin & Hk). exists k. split; [exact Hin|].
  by apply scheme_shape_at_app.
Qed.

Section is_hash.
Context `{Runtime}.

Lemma is_hash_unpadded (s : bytes) :
  padded s = false →
  is_hash s = hex_prefix s || ((23 <=? length s)%nat && scheme_shape s).
Proof.
  unfold padded, is_hash. intros ->.
  rewrite hash_regex_spec, extended_hash_regex_spec.
  destruct (hex_prefix s); [reflexivity|].
  by destruct ((23 <=? length s)%nat && scheme_shape s).
Qed.

(** X5: outside the Base64 test, [is_hash] looks at the beginning of the
    value only: a value it takes for a hash is still one with anything
    appended, as long as the extended value does not fall under the Base64
    test. *)
Theorem is_hash_ignores_what_follows (s t : bytes) :
  padded s = false → padded (s ++ t) = false →
  is_hash s = true → is_hash (s ++ t) = true.
Proof.
  intros Hs Hst. rewrite !is_hash_unpadded by assumption.
  rewrite !orb_true_iff, !andb_true_iff, !Nat.leb_le, length_app.
  intros [Hhex | [Hlen Hshape]].
  - left. by apply hex_prefix_app.
  - right. split; [lia | by apply scheme_shape_app].
Qed.

(** X6: a value of fewer than 20 bytes is taken for a hash only through the
    Base64 test: it is longer than 10 bytes, ends with [=], and decodes. *)
Theorem short_hash_is_base64 (s : bytes) :
  (length s < 20)%nat → is_hash s = true →
  padded s = true ∧ is_Some (b64decode s).
Proof.
  intros Hlen. destruct (padded s) eqn:P.
  - unfold is_hash. unfold padded in P. rewrite P.
    destruct (b64decode s) as [d|]; [|discriminate]. intros _. split; eauto.
  - rewrite is_hash_unpadded by exact P. unfold hex_prefix.
    replace (20 <=? length s)%nat with false by (symmetry; apply Nat.leb_gt; lia).
    replace (23 <=? length s)%nat with false by (symmetry; apply Nat.leb_gt; lia).
    discriminate.
Qed.

End is_hash.

Lemma is_hash_ignores_what_follows_witness :
  let s := b "5f4dcc3b5aa765d61d83" in
  let t := b " is my password" in
  padded s = false ∧ padded (s ++ t) = false ∧
  is_hash s = true ∧ is_hash (s ++ t) = true.
Proof.
  intros s t.
  assert (is_hash s = true) as Hs by reflexivity.
  split; [reflexivity|]. split; [reflexivity|]. split; [exact Hs|].
  exact (is_hash_ignores_what_follows s t eq_refl eq_refl Hs).
Defined.

Lemma short_hash_is_base64_witness :
  let s := b "aGVsbG8gd28=" in
  (length s < 20)%nat ∧ is_hash s = true ∧
  padded s = true ∧ is_Some (b64decode s).
Proof.
  intros s.
  assert ((length s < 20)%nat) as Hlen by (vm_compute; lia).
  assert (is_hash s = true) as Hs by reflexivity.
  split; [exact Hlen|]. split; [exact Hs|].
  exact (short_hash_is_base64 s Hlen Hs).
Defined.

End HashFacts.

(** ** lib/account.py: what the constructor keeps and moves *)

Module NormalizerFacts.
Import Py Re validation account Spec Sample.
Import ReFacts ValidationFacts ConstructorFacts IdentityFacts RoundTripFacts.
Import EmailFacts.

Lemma forallb_filter {A} (p : A → bool) (l : list A) :
  forallb p (List.filter p l) = true.
Proof.
  induction l as [|c l IH]; simpl; [reflexivity|].
  destruct (p c) eqn:E; simpl; [by rewrite E|exact IH].
Qed.

Lemma strip_invalid_filter (e : bytes) :
  strip_invalid e = List.filter allowed (lower (strip whitespace e)).
Proof. unfold strip_invalid. by rewrite keep_loop. Qed.

Lemma lstrip_length chars (s : bytes) : (length (lstrip chars s) ≤ length s)%nat.
Proof.
  induction s as [|c s IH]; simpl; [lia|].
  destruct (mem c chars); simpl; lia.
Qed.

Lemma strip_length chars (s : bytes) : (length (strip chars s) ≤ length s)%nat.
Proof.
  unfold strip, rstrip. rewrite length_rev.
  etrans; [apply lstrip_length|]. rewrite length_rev. apply lstrip_length.
Qed.

Lemma strip_invalid_bytes (e : bytes) : forallb allowed (strip_invalid e) = true.
Proof. rewrite strip_invalid_filter. apply forallb_filter. Qed.

(** X7: the email filter of lines 66-71 returns allow-set bytes only, never
    more bytes than it was given, and filtering twice changes nothing. *)
Theorem strip_invalid_filters (e : bytes) :
  forallb allowed (strip_invalid e) = true ∧
  (length (strip_invalid e) ≤ length e)%nat ∧
  strip_invalid (strip_invalid e) = strip_invalid e.
Proof.
  assert (forallb allowed (strip_invalid e) = true) as Hall
    by apply strip_invalid_bytes.
  split; [exact Hall|]. split; [|by apply strip_invalid_allowed].
  rewrite strip_invalid_filter.
  etrans; [apply filter_length_le|].
  unfold lower. rewrite length_map. apply strip_length.
Qed.

(** The five ways through lines 80-90. *)
Lemma resolve_email_cases strict self self' :
  resolve_email strict self = Ok self' →
  (email self = [] ∧ is_email (username self) = true ∧
   email self' = lower (username self) ∧ username self' = []) ∨
  (email self = [] ∧ is_email (username self) = false ∧ self' = self) ∨
  (is_email (email self) = true ∧ self' = self) ∨
  (strict = false ∧ email self ≠ [] ∧ is_email (email self) = false ∧
   username self = [] ∧ email self' = [] ∧ username self' = email self) ∨
  (strict = false ∧ email self ≠ [] ∧ is_email (email self) = false ∧
   username self ≠ [] ∧ self' = self).
Proof.
  unfold resolve_email.
  destruct (email self) as [|c e] eqn:E; simpl.
  - destruct (is_email (username self)) eqn:U; intros [= <-]; simpl; auto.
  - destruct (is_email (c :: e)) eqn:V; simpl.
    + intros [= <-]. auto.
    + destruct strict; [discriminate|].
      destruct (username self) as [|c' u'] eqn:U; simpl; intros [= <-]; simpl.
      * right. right. right. left. repeat split; auto; congruence.
      * right. right. right. right. repeat split; auto; congruence.
Qed.

Lemma email_shape_bytes (s : bytes) :
  email_shape s → forallb (λ c, email_byte (lower_byte c)) s = true.
Proof.
  intros (x & y & z & tail & -> & _ & Hx & _ & Hy & _ & Hz & Htail).
  rewrite !forallb_app, !andb_true_iff.
  split; [|split; [|split; [|split; [|split]]]].
  - eapply forallb_imp; [|exact Hx]. intros c. destruct c; (discriminate || reflexivity).
  - reflexivity.
  - eapply forallb_imp; [|exact Hy]. intros c. destruct c; (discriminate || reflexivity).
  - reflexivity.
  - eapply forallb_imp; [|exact Hz]. intros c. destruct c; (discriminate || reflexivity).
  - destruct Htail as [-> | ->]; reflexivity.
Qed.

Lemma is_email_length (s : bytes) : is_email s = true → (length s ≤ 128)%nat.
Proof.
  unfold is_email. destruct (128 <? length s)%nat eqn:L; [discriminate|].
  intros _. by apply Nat.ltb_ge.
Qed.

Lemma is_email_shape (s : bytes) : is_email s = true → email_shape s.
Proof.
  unfold is_email. destruct (128 <? length s)%nat; [discriminate|].
  destruct (match_ email_regex_bytes s) eqn:M; [|discriminate].
  intros _. by apply email_pattern_shape.
Qed.

(** The bytes of a lower-cased valid email. *)
Lemma lower_email_bytes (s : bytes) :
  is_email s = true → forallb email_byte (lower s) = true.
Proof.
  intros Hs. apply is_email_shape, email_shape_bytes in Hs.
  unfold lower. clear -Hs. induction s as [|c s IH]; simpl in *; [auto|].
  apply andb_true_iff in Hs as [-> Hs]. auto.
Qed.

Lemma email_byte_ascii c : email_byte c = true → is_ascii c = true.
Proof. destruct c; (discriminate || reflexivity). Qed.

Lemma allowed_email_byte c : allowed c = true → email_byte c = true.
Proof. unfold email_byte. by intros ->. Qed.

Lemma has_translate_delete x delete (s : bytes) :
  mem x delete = true → has x (translate_delete delete s) = false.
Proof.
  intros Hx. unfold translate_delete.
  apply (forallb_has (λ c, negb (mem c delete))); [by rewrite Hx|].
  apply forallb_filter.
Qed.

Section with_runtime.
Context `{Runtime}.

(** The fields that lines 93-99 do not touch. *)
Lemma normalize_names email username password _hash misc strict self :
  normalize email username password _hash misc strict = Ok self →
  ∃ a, resolve_email strict (cleanup email username password _hash misc) = Ok a ∧
       account.email self = account.email a ∧
       account.username self = account.username a.
Proof.
  unfold normalize.
  destruct (resolve_email strict (cleanup email username password _hash misc))
    as [a|e] eqn:E; [|discriminate].
  rewrite bind_ok. intros [= <-]. exists a. split; [reflexivity|].
  destruct (password_to_misc_email (password_to_hash _hash a)) as (-> & -> & _).
  destruct (password_to_hash_email _hash a) as (-> & -> & _). auto.
Qed.

(** X8: the cleaned password is never lost and never copied: after lines
    93-99 it is in exactly one of the password, hash and note fields.  It
    moves to the hash field only when the hash argument is empty and
    [is_hash] accepts it, to the note only when the cleaned note is empty and
    it has at least 100 bytes; the cleaned hash and note are otherwise
    kept. *)
Theorem password_is_kept_or_moved
    (email username password _hash misc : bytes) (strict : bool) (self : Account) :
  normalize email username password _hash misc strict = Ok self →
  let p := strip crlf password in
  let h := strip crlf _hash in
  let m := strip crlf misc in
  (account.password self = p ∧ hash self = h ∧ account.misc self = m) ∨
  (account.password self = [] ∧ hash self = p ∧ account.misc self = m ∧
   _hash = [] ∧ p ≠ [] ∧ is_hash p = true) ∨
  (account.password self = [] ∧ hash self = h ∧ account.misc self = p ∧
   m = [] ∧ (100 ≤ length p)%nat).
Proof.
  unfold normalize.
  destruct (resolve_email strict (cleanup email username password _hash misc))
    as [a|e] eqn:E; [|discriminate].
  rewrite bind_ok. intros [= <-].
  apply resolve_email_rest in E as (Hp & Hh & Hm).
  cbn [account.password hash account.misc cleanup] in Hp, Hh, Hm.
  rewrite <- Hp, <- Hh, <- Hm. clear Hp Hh Hm.
  unfold password_to_hash.
  destruct (negb (truthy _hash) && truthy (account.password a)) eqn:C1;
    [destruct (is_hash (account.password a)) eqn:C2|].
  - right. left.
    apply andb_true_iff in C1 as [Ch Cp].
    apply negb_true_iff, truthy_false in Ch. apply truthy_true in Cp.
    rewrite password_to_misc_short by (simpl; lia). simpl. auto 10.
  - unfold password_to_misc.
    destruct (negb (truthy (account.misc a)) &&
              (100 <=? length (account.password a))%nat) eqn:C3; simpl.
    + right. right. apply andb_true_iff in C3 as [Cm Cl].
      apply negb_true_iff, truthy_false in Cm. apply Nat.leb_le in Cl.
      auto 10.
    + left. auto.
  - unfold password_to_misc.
    destruct (negb (truthy (account.misc a)) &&
              (100 <=? length (account.password a))%nat) eqn:C3; simpl.
    + right. right. apply andb_true_iff in C3 as [Cm Cl].
      apply negb_true_iff, truthy_false in Cm. apply Nat.leb_le in Cl.
      auto 10.
    + left. auto.
Qed.

(** X12: after lines 66-99 the username holds no apostrophe and no
    backslash, whether it is the cleaned username or a demoted email. *)
Theorem username_has_no_quote_or_backslash
    (email username password _hash misc : bytes) (strict : bool) (self : Account) :
  normalize email username password _hash misc strict = Ok self →
  has "'" (account.username self) = false ∧
  has "\" (account.username self) = false.
Proof.
  intros Hn. apply normalize_names in Hn as (a & Ha & _ & ->).
  assert (has "'" (account.username
            (cleanup email username password _hash misc)) = false ∧
          has "\" (account.username
            (cleanup email username password _hash misc)) = false) as Hu
    by (split; by apply has_translate_delete).
  assert (forallb allowed (account.email
            (cleanup email username password _hash misc)) = true) as He
    by apply strip_invalid_bytes.
  apply resolve_email_cases in Ha
    as [(_ & _ & _ & ->) | [(_ & _ & ->) | [(_ & ->)
       | [(_ & _ & _ & _ & _ & ->) | (_ & _ & _ & _ & ->)]]]]; auto.
  split; by apply (forallb_has allowed).
Qed.

(** X13: after lines 66-99 every byte of the email is an allow-set byte or
    a line feed; in particular the email holds no capital letter, no blank
    and no NUL. *)
Theorem email_bytes_are_allowed_or_line_feed
    (email username password _hash misc : bytes) (strict : bool) (self : Account) :
  normalize email username password _hash misc strict = Ok self →
  forallb email_byte (account.email self) = true.
Proof.
  intros Hn. apply normalize_names in Hn as (a & Ha & -> & _).
  assert (forallb email_byte (account.email
            (cleanup email username password _hash misc)) = true) as He.
  { eapply forallb_imp; [apply allowed_email_byte|]. apply strip_invalid_bytes. }
  apply resolve_email_cases in Ha
    as [(_ & Hu & -> & _) | [(_ & _ & ->) | [(_ & ->)
       | [(_ & _ & _ & _ & -> & _) | (_ & _ & _ & _ & ->)]]]]; auto.
  by apply lower_email_bytes.
Qed.

(** Lines 93-99 move values between the three fields and leave them all
    empty only when they were. *)
Lemma moves_keep_emptiness _hash (a : Account) :
  let a' := password_to_misc (password_to_hash _hash a) in
  (account.password a' = [] ∧ hash a' = [] ∧ account.misc a' = []) ↔
  (account.password a = [] ∧ hash a = [] ∧ account.misc a = []).
Proof.
  unfold password_to_hash, password_to_misc.
  destruct a as [e u p h m]. cbn [account.password hash account.misc].
  destruct p as [|c p]; [by rewrite !andb_false_r|].
  cbn [truthy]. rewrite andb_true_r.
  set (P := c :: p). assert (P ≠ []) as HP by discriminate.
  destruct (negb (truthy _hash)); [destruct (is_hash P)|];
    cbn [account.password hash account.misc length truthy];
    rewrite ?andb_false_r;
    try destruct (negb (truthy m) && (100 <=? length P)%nat);
    cbn [account.password hash account.misc];
    split; intros (? & ? & ?); congruence.
Qed.

Lemma is_email_lower_kept (s : bytes) :
  is_email s = true → is_email (lower s) = true.
Proof.
  unfold is_email. rewrite email_pattern_lower.
  unfold lower. by rewrite length_map.
Qed.

Context `{Util}.

Section with_ascii_codec.
Hypothesis Hclean : ∀ s, forallb is_ascii s = true → clean_encoding s = s.

Lemma truncate_email_kept (a : Account) :
  forallb email_byte (account.email a) = true →
  (length (account.email a) ≤ 128)%nat →
  account.email (truncate a) = account.email a.
Proof using Hclean.
  intros Hb Hlen. unfold truncate. cbn [account.email].
  rewrite Hclean by (eapply forallb_imp; [apply email_byte_ascii | exact Hb]).
  by apply slice_last_all.
Qed.

(** X9: when the filtered email is empty and the cleaned username passes
    [is_email], the construction succeeds, whatever the other fields and
    the strict flag, with the lower-cased username as email and an empty
    username; the repair step is taken to leave ASCII values as they are. *)
Theorem username_is_promoted
    (email username password _hash misc : bytes) (strict : bool) :
  account.email (cleanup email username password _hash misc) = [] →
  is_email (account.username (cleanup email username password _hash misc))
  = true →
  ∃ r, __init__ email username password _hash misc strict = Ok r ∧
       account.email r
       = lower (account.username (cleanup email username password _hash misc)) ∧
       account.username r = [].
Proof using Hclean.
  set (c := cleanup email username password _hash misc).
  intros He Hu. unfold __init__, normalize. fold c.
  assert (resolve_email strict c =
          Ok {| account.email := lower (account.username c);
                account.username := [];
                account.password := account.password c;
                hash := hash c; account.misc := account.misc c |}) as ->.
  { unfold resolve_email. by rewrite He, Hu. }
  rewrite !bind_ok.
  set (a := {| account.email := lower (account.username c);
               account.username := [] |}).
  set (a' := password_to_misc (password_to_hash _hash a)).
  assert (account.email a' = lower (account.username c) ∧
          account.username a' = []) as [Ea Ua].
  { unfold a'.
    destruct (password_to_misc_email (password_to_hash _hash a)) as (-> & -> & _).
    destruct (password_to_hash_email _hash a) as (-> & -> & _). auto. }
  assert (enough a' = true) as ->.
  { unfold enough. rewrite Ea.
    destruct (account.username c); [discriminate Hu | reflexivity]. }
  cbn [negb]. eexists. split; [reflexivity|]. split.
  - rewrite truncate_email_kept; rewrite Ea; auto.
    + by apply lower_email_bytes.
    + unfold lower. rewrite length_map. by apply is_email_length.
  - unfold truncate. cbn [account.username]. rewrite Ua.
    by rewrite (Hclean [] eq_refl).
Qed.

(** X11: a record constructed in strict mode has an email that is empty or
    passes [is_email]; the repair step is taken to leave ASCII values as
    they are. *)
Theorem strict_email_is_valid_or_empty
    (email username password _hash misc : bytes) (r : Account) :
  __init__ email username password _hash misc true = Ok r →
  account.email r = [] ∨ is_email (account.email r) = true.
Proof using Hclean.
  unfold __init__.
  destruct (normalize email username password _hash misc true)
    as [self|e] eqn:N; [|discriminate].
  rewrite bind_ok. destruct (enough self); [|discriminate].
  cbn [negb]. intros [= <-].
  apply normalize_names in N as (a & Ha & Ee & _).
  assert (forallb allowed (account.email
            (cleanup email username password _hash misc)) = true) as Hall
    by apply strip_invalid_bytes.
  assert (account.email self = [] ∨
          (is_email (account.email self) = true ∧
           forallb email_byte (account.email self) = true)) as [E | [E Hb]].
  { rewrite Ee. apply resolve_email_cases in Ha
      as [(_ & Hu & -> & _) | [(E & _ & ->) | [(E & ->)
         | [(? & _) | (? & _)]]]]; try discriminate.
    - right. split; [by apply is_email_lower_kept | by apply lower_email_bytes].
    - left. exact E.
    - right. split; [exact E|].
      eapply forallb_imp; [apply allowed_email_byte | exact Hall]. }
  - left. unfold truncate. cbn [account.email]. rewrite E.
    by rewrite (Hclean [] eq_refl).
  - right. rewrite truncate_email_kept; auto. by apply is_email_length.
Qed.

End with_ascii_codec.

(** X10: without strict mode, a filtered email that is non-empty and fails
    [is_email], next to an empty cleaned username, becomes the username and
    leaves the email empty; the construction then fails exactly when the
    cleaned password, hash and note are all empty. *)
Theorem invalid_email_is_demoted
    (email username password _hash misc : bytes) :
  account.email (cleanup email username password _hash misc) ≠ [] →
  is_email (account.email (cleanup email username password _hash misc))
  = false →
  account.username (cleanup email username password _hash misc) = [] →
  ∃ self,
    normalize email username password _hash misc false = Ok self ∧
    account.email self = [] ∧
    account.username self
    = account.email (cleanup email username password _hash misc) ∧
    (__init__ email username password _hash misc false
     = Raise AccountCreationError ↔
     strip crlf password = [] ∧ strip crlf _hash = [] ∧ strip crlf misc = []).
Proof.
  set (c := cleanup email username password _hash misc).
  intros He Hbad Hu. unfold __init__, normalize. fold c.
  assert (resolve_email false c =
          Ok {| account.email := []; account.username := account.email c;
                account.password := account.password c;
                hash := hash c; account.misc := account.misc c |}) as ->.
  { unfold resolve_email. apply truthy_true in He. by rewrite He, Hbad, Hu. }
  rewrite !bind_ok.
  set (a := {| account.email := []; account.username := account.email c |}).
  set (a' := password_to_misc (password_to_hash _hash a)).
  assert (account.email a' = [] ∧ account.username a' = account.email c)
    as [Ea Ua].
  { unfold a'.
    destruct (password_to_misc_email (password_to_hash _hash a)) as (-> & -> & _).
    destruct (password_to_hash_email _hash a) as (-> & -> & _). auto. }
  exists a'. split; [reflexivity|]. split; [exact Ea|]. split; [exact Ua|].
  pose proof (moves_keep_emptiness _hash a) as Hempty. fold a' in Hempty.
  cbn [account.password hash account.misc a cleanup c] in Hempty.
  rewrite <- Hempty.
  unfold enough. rewrite Ea, Ua. apply truthy_true in He. rewrite He.
  cbn [truthy orb andb].
  destruct (account.password a'), (account.misc a'), (hash a');
    cbn [truthy orb negb]; split; try discriminate; auto;
    intros (? & ? & ?); discriminate.
Qed.

End with_runtime.

Lemma password_is_kept_or_moved_witness :
  let self := mkAccount [] (b "bob") [] (b "5f4dcc3b5aa765d61d8327deb882cf99") [] in
  let p := strip crlf (b "5f4dcc3b5aa765d61d8327deb882cf99") in
  normalize [] (b "bob") (b "5f4dcc3b5aa765d61d8327deb882cf99") [] [] false
  = Ok self ∧
  ((account.password self = p ∧ hash self = strip crlf [] ∧
    account.misc self = strip crlf []) ∨
   (account.password self = [] ∧ hash self = p ∧
    account.misc self = strip crlf [] ∧
    @nil byte = [] ∧ p ≠ [] ∧ is_hash p = true) ∨
   (account.password self = [] ∧ hash self = strip crlf [] ∧
    account.misc self = p ∧ strip crlf [] = [] ∧ (100 ≤ length p)%nat)).
Proof.
  intros self p.
  assert (normalize [] (b "bob") (b "5f4dcc3b5aa765d61d8327deb882cf99") [] []
            false = Ok self) as Hn by reflexivity.
  split; [exact Hn|].
  exact (password_is_kept_or_moved _ _ _ _ _ _ _ Hn).
Defined.

Lemma username_has_no_quote_or_backslash_witness :
  let self := mkAccount [] (b "obrien") (b "hunter2") [] [] in
  normalize [] (b " o'brien\ ") (b "hunter2") [] [] false = Ok self ∧
  has "'" (account.username self) = false ∧
  has "\" (account.username self) = false.
Proof.
  intros self.
  assert (normalize [] (b " o'brien\ ") (b "hunter2") [] [] false = Ok self)
    as Hn by reflexivity.
  split; [exact Hn|].
  exact (username_has_no_quote_or_backslash _ _ _ _ _ _ _ Hn).
Defined.

Lemma email_bytes_are_allowed_or_line_feed_witness :
  let self := mkAccount (b "bobsmith@example.com") [] [] [] [] in
  normalize (b " Bob Smith@Example.COM ") [] [] [] [] false = Ok self ∧
  forallb email_byte (account.email self) = true.
Proof.
  intros self.
  assert (normalize (b " Bob Smith@Example.COM ") [] [] [] [] false = Ok self)
    as Hn by reflexivity.
  split; [exact Hn|].
  exact (email_bytes_are_allowed_or_line_feed _ _ _ _ _ _ _ Hn).
Defined.

Lemma username_is_promoted_witness :
  let c := cleanup [] (b "John.Doe@Example.com") (b "hunter2") [] [] in
  (∀ s, forallb is_ascii s = true → clean_encoding s = s) ∧
  account.email c = [] ∧
  is_email (account.username c) = true ∧
  ∃ r, __init__ [] (b "John.Doe@Example.com") (b "hunter2") [] [] true = Ok r ∧
       account.email r = lower (account.username c) ∧
       account.username r = [].
Proof.
  intros c. split; [exact SampleFacts.utf8_replace_ascii|].
  split; [reflexivity|]. split; [reflexivity|].
  exact (username_is_promoted SampleFacts.utf8_replace_ascii
           [] (b "John.Doe@Example.com") (b "hunter2") [] [] true
           eq_refl eq_refl).
Defined.

Lemma strict_email_is_valid_or_empty_witness :
  let r := mkAccount (b "bobsmith@example.com") [] [] [] [] in
  (∀ s, forallb is_ascii s = true → clean_encoding s = s) ∧
  __init__ (b "bob smith@example.com") [] [] [] [] true = Ok r ∧
  (account.email r = [] ∨ is_email (account.email r) = true).
Proof.
  intros r.
  assert (__init__ (b "bob smith@example.com") [] [] [] [] true = Ok r)
    as Hr by reflexivity.
  split; [exact SampleFacts.utf8_replace_ascii|]. split; [exact Hr|].
  exact (strict_email_is_valid_or_empty SampleFacts.utf8_replace_ascii
           _ _ _ _ _ _ Hr).
Defined.

Lemma invalid_email_is_demoted_witness :
  let c := cleanup (b "not an email") [] (b "hunter2") [] [] in
  account.email c ≠ [] ∧
  is_email (account.email c) = false ∧
  account.username c = [] ∧
  ∃ self,
    normalize (b "not an email") [] (b "hunter2") [] [] false = Ok self ∧
    account.email self = [] ∧
    account.username self = account.email c ∧
    (__init__ (b "not an email") [] (b "hunter2") [] [] false
     = Raise AccountCreationError ↔
     strip crlf (b "hunter2") = [] ∧ strip crlf [] = [] ∧ strip crlf [] = []).
Proof.
  intros c.
  assert (account.email c ≠ []) as He by (vm_compute; discriminate).
  split; [exact He|]. split; [reflexivity|]. split; [reflexivity|].
  exact (invalid_email_is_demoted (b "not an email") [] (b "hunter2") [] []
           He eq_refl eq_refl).
Defined.

End NormalizerFacts.

(** ** lib/account.py: the parts of the email, the joined fields, the
    identifier *)

Module IdentifierFacts.
Import Py Re validation account Spec Sample.
Import ConstructorFacts IdentityFacts RoundTripFacts.

Lemma has_before sep (s : bytes) : has sep (before sep s) = false.
Proof.
  induction s as [|c s IH]; simpl; [reflexivity|].
  destruct (Byte.eqb c sep) eqn:E; simpl; [reflexivity|]. by rewrite E.
Qed.

Lemma before_after sep (s : bytes) :
  has sep s = true → s = before sep s ++ sep :: after sep s.
Proof.
  induction s as [|c s IH]; simpl; [discriminate|].
  destruct (Byte.eqb c sep) eqn:E; simpl.
  - intros _. apply byte_dec_bl in E. by subst.
  - intros Hs. by rewrite <- IH.
Qed.

(** X14: neither part returned by [split_email] holds an [@]; an email
    without [@] is all local part with an empty domain; and the local part,
    [@] and the domain put together are the email exactly when the email
    has one [@]. *)
Theorem split_email_parts_of (self : Account) :
  has "@" (fst (split_email self)) = false ∧
  has "@" (snd (split_email self)) = false ∧
  (has "@" (email self) = false → split_email self = (email self, [])) ∧
  (fst (split_email self) ++ b "@" ++ snd (split_email self) = email self ↔
   ∃ x y, email self = x ++ b "@" ++ y ∧ has "@" x = false ∧ has "@" y = false).
Proof.
  rewrite split_email_parts. unfold local_part, domain_part. cbn [fst snd].
  split; [apply has_before|]. split; [apply has_before|]. split.
  - intros Hno. by rewrite (before_without _ _ Hno), (after_without _ _ Hno).
  - split.
    + intros E. exists (before "@" (email self)),
        (before "@" (after "@" (email self))).
      split; [by rewrite E|]. split; apply has_before.
    + intros (x & y & E & Hx & Hy). rewrite E.
      change (x ++ b "@" ++ y) with (x ++ "@"%byte :: y).
      rewrite before_app, after_app by exact Hx.
      by rewrite (before_without _ _ Hy).
Qed.

(** Splitting what was joined, for parts without the separator. *)
Section split_join.
Context {A : Type} (eqb : A → A → bool) (sep : A).
Hypothesis eqb_sep : eqb sep sep = true.

Lemma split_sep_free (p : list A) :
  sep_free eqb sep p = true → split eqb sep p = [p].
Proof.
  induction p as [|c p IH]; simpl; [reflexivity|].
  rewrite andb_true_iff, negb_true_iff. intros [-> Hp]. by rewrite (IH Hp).
Qed.

Lemma split_app_sep (p rest : list A) :
  sep_free eqb sep p = true →
  split eqb sep (p ++ sep :: rest) = p :: split eqb sep rest.
Proof using eqb_sep.
  induction p as [|c p IH]; simpl.
  - by rewrite eqb_sep.
  - rewrite andb_true_iff, negb_true_iff. intros [-> Hp]. by rewrite (IH Hp).
Qed.

Lemma split_join (parts : list (list A)) :
  parts ≠ [] → forallb (sep_free eqb sep) parts = true →
  split eqb sep (join [sep] parts) = parts.
Proof using eqb_sep.
  induction parts as [|p parts IH]; [congruence|]. intros _.
  cbn [forallb]. rewrite andb_true_iff. intros [Hp Hparts].
  destruct parts as [|q parts].
  - simpl. by apply split_sep_free.
  - change (join [sep] (p :: q :: parts))
      with (p ++ sep :: join [sep] (q :: parts)).
    rewrite split_app_sep by exact Hp. f_equal. by apply IH.
Qed.

End split_join.

Lemma sep_free_has sep (s : bytes) :
  has sep s = false → sep_free Byte.eqb sep s = true.
Proof.
  unfold has, sep_free. induction s as [|c s IH]; simpl; [reflexivity|].
  rewrite orb_false_iff. intros [-> Hs]. by rewrite IH.
Qed.

(** X15: when no field holds a NUL byte, splitting the property [bytes] at
    the NUL bytes gives the five fields back, in their order. *)
Theorem bytes_split_gives_fields (self : Account) :
  has "000" (email self) = false → has "000" (username self) = false →
  has "000" (password self) = false → has "000" (hash self) = false →
  has "000" (misc self) = false →
  split Byte.eqb "000"%byte (bytes_ self)
  = [email self; username self; password self; hash self; misc self].
Proof.
  intros He Hu Hp Hh Hm. unfold bytes_.
  apply split_join; [reflexivity | discriminate |].
  cbn [forallb]. by rewrite !sep_free_has.
Qed.

Lemma bytes_split_gives_fields_witness :
  let self := mkAccount (b "a@b.com") (b "bob") (b "hunter2") [] [] in
  has "000" (email self) = false ∧ has "000" (username self) = false ∧
  has "000" (password self) = false ∧ has "000" (hash self) = false ∧
  has "000" (misc self) = false ∧
  split Byte.eqb "000"%byte (bytes_ self)
  = [email self; username self; password self; hash self; misc self].
Proof.
  intros self. repeat (split; [reflexivity|]).
  exact (bytes_split_gives_fields self eq_refl eq_refl eq_refl eq_refl eq_refl).
Defined.

(** The digest has 32 bytes. *)
Lemma round_length st kw : length st = 8%nat → length (hashlib.round st kw) = 8%nat.
Proof.
  destruct st as [|? [|? [|? [|? [|? [|? [|? [|? [|? ?]]]]]]]]];
    try discriminate. reflexivity.
Qed.

Lemma rounds_length kws st :
  length st = 8%nat → length (fold_left hashlib.round kws st) = 8%nat.
Proof.
  revert st. induction kws as [|kw kws IH]; intros st Hst; simpl; [exact Hst|].
  by apply IH, round_length.
Qed.

Lemma compress_length h block :
  length h = 8%nat → length (hashlib.compress h block) = 8%nat.
Proof.
  intros Hh. unfold hashlib.compress.
  rewrite length_map, length_combine, rounds_length by exact Hh. lia.
Qed.

Lemma blocks_length fuel bs h :
  length h = 8%nat → length (hashlib.blocks fuel bs h) = 8%nat.
Proof.
  revert bs h. induction fuel as [|fuel IH]; intros bs h Hh; simpl; [exact Hh|].
  destruct bs; [exact Hh|]. by apply IH, compress_length.
Qed.

Lemma word_bytes_length (l : list Z) :
  length (flat_map hashlib.word_bytes l) = (4 * length l)%nat.
Proof. induction l as [|x l IH]; simpl; [reflexivity|]. rewrite IH. lia. Qed.

Lemma sha256_length (data : bytes) : length (hashlib.sha256 data) = 32%nat.
Proof.
  unfold hashlib.sha256. rewrite length_map, word_bytes_length.
  by rewrite blocks_length.
Qed.

Lemma digit_base64 n : n < 64 → base64_char (base64.digit n) = true.
Proof.
  intros Hn. unfold base64_char, base64.digit, mem.
  apply existsb_exists.
  exists (nth (N.to_nat n) base64.alphabet "="%byte). split; [|apply eqb_refl].
  apply nth_In. change (length base64.alphabet) with 64%nat. lia.
Qed.

Lemma ord_bound c : ord c ≤ 255.
Proof. apply Byte.to_N_bounded. Qed.

Lemma quarter_bound x : x ≤ 255 → x / 4 < 64.
Proof. intros Hx. apply N.Div0.div_lt_upper_bound. lia. Qed.

Lemma sixteenth_bound x : x ≤ 255 → x / 16 < 16.
Proof. intros Hx. apply N.Div0.div_lt_upper_bound. lia. Qed.

Lemma sixtyfourth_bound x : x ≤ 255 → x / 64 < 4.
Proof. intros Hx. apply N.Div0.div_lt_upper_bound. lia. Qed.

(** Three bytes give four characters of the alphabet, and no padding. *)
Lemma b64encode_triple x y z (s : bytes) :
  ∃ d, base64.b64encode (x :: y :: z :: s) = d ++ base64.b64encode s ∧
       length d = 4%nat ∧ forallb base64_char d = true.
Proof.
  eexists. split; [reflexivity|]. split; [reflexivity|].
  pose proof (ord_bound x) as Hx. pose proof (ord_bound y) as Hy.
  pose proof (ord_bound z) as Hz.
  pose proof (quarter_bound _ Hx). pose proof (sixteenth_bound _ Hy).
  pose proof (sixtyfourth_bound _ Hz).
  pose proof (N.mod_lt (ord x) 4 ltac:(lia)).
  pose proof (N.mod_lt (ord y) 16 ltac:(lia)).
  pose proof (N.mod_lt (ord z) 64 ltac:(lia)).
  cbn [forallb]. rewrite !digit_base64; [reflexivity|..].
  - assumption.
  - generalize dependent (ord y mod 16). generalize dependent (ord z / 64).
    intros; lia.
  - generalize dependent (ord x mod 4). generalize dependent (ord y / 16).
    intros; lia.
  - assumption.
Qed.

Lemma b64encode_whole (s : bytes) (n : nat) :
  length s = (3 * n)%nat →
  length (base64.b64encode s) = (4 * n)%nat ∧
  forallb base64_char (base64.b64encode s) = true.
Proof.
  revert s. induction n as [|n IH]; intros s Hs.
  - destruct s; [split; reflexivity | discriminate].
  - destruct s as [|x [|y [|z s]]]; try (simpl in Hs; lia).
    destruct (b64encode_triple x y z s) as (d & -> & Hd & Hall).
    destruct (IH s) as [Hlen Hs']; [simpl in Hs; lia|].
    rewrite length_app, forallb_app, Hd, Hlen, Hall, Hs'. split; [lia | reflexivity].
Qed.

Lemma fingerprint_bytes (n : nat) (data : bytes) :
  (3 * n ≤ 32)%nat →
  length (base64.b64encode (take (3 * n) (hashlib.sha256 data))) = (4 * n)%nat ∧
  forallb base64_char (base64.b64encode (take (3 * n) (hashlib.sha256 data)))
  = true.
Proof.
  intros Hn. apply b64encode_whole.
  rewrite length_take, sha256_length. lia.
Qed.

Lemma base64_ascii c : base64_char c = true → is_ascii c = true.
Proof. destruct c; (discriminate || reflexivity). Qed.

Section identifier.
Context `{Util}.
Hypothesis Hdecode : ∀ s, forallb is_ascii s = true → decode s = map ord s.

(** X16: the identifier is the decoded reversed domain (nothing for an
    empty email), [|], and 16 characters of the Base64 alphabet, without
    padding; the codec is taken to decode ASCII bytes to the same
    characters. *)
Theorem identifier_shape (self : Account) :
  ∃ fp : bytes,
    to_object_id self
    = (if truthy (email self)
       then decode (rev (snd (split_email self))) else [])
      ++ u "|" ++ map ord fp ∧
    length fp = 16%nat ∧ forallb base64_char fp = true.
Proof using Hdecode.
  unfold to_object_id, slice_to.
  destruct (truthy (email self)).
  - destruct (split_email self) as [local domain]. cbn [snd].
    destruct (fingerprint_bytes 2 local ltac:(lia)) as [L1 A1].
    destruct (fingerprint_bytes 2 (bytes_ self) ltac:(lia)) as [L2 A2].
    change (3 * 2)%nat with 6%nat in *.
    set (f1 := base64.b64encode (take 6 (hashlib.sha256 local))) in *.
    set (f2 := base64.b64encode (take 6 (hashlib.sha256 (bytes_ self)))) in *.
    exists (f1 ++ f2).
    rewrite (Hdecode f1), (Hdecode f2)
      by (eapply forallb_imp; [apply base64_ascii | eassumption]).
    rewrite map_app, length_app, forallb_app, L1, L2, A1, A2.
    repeat split; reflexivity.
  - destruct (fingerprint_bytes 4 (bytes_ self) ltac:(lia)) as [L A].
    change (3 * 4)%nat with 12%nat in *.
    set (f := base64.b64encode (take 12 (hashlib.sha256 (bytes_ self)))) in *.
    exists f.
    rewrite (Hdecode f)
      by (eapply forallb_imp; [apply base64_ascii | eassumption]).
    repeat split; auto.
Qed.

End identifier.

Lemma identifier_shape_witness :
  let self := mkAccount (b "a@b@c") (b "bob") (b "x") [] [] in
  (∀ s, forallb is_ascii s = true → decode s = map ord s) ∧
  ∃ fp : bytes,
    to_object_id self
    = (if truthy (email self)
       then decode (rev (snd (split_email self))) else [])
      ++ u "|" ++ map ord fp ∧
    length fp = 16%nat ∧ forallb base64_char fp = true.
Proof.
  intros self.
  assert (∀ s, forallb is_ascii s = true → decode s = map ord s) as Hd
    by reflexivity.
  split; [exact Hd|]. exact (identifier_shape Hd self).
Defined.

End IdentifierFacts.

(** ** lib/account.py: the document, the presentation shape, the metadata *)

Module DocumentFacts.
Import Py Re validation account Spec Sample.
Import ConstructorFacts IdentityFacts RoundTripFacts IdentifierFacts.

Section with_runtime.
Context `{Runtime} `{Util}.

(** X17: the document always has the key [_id], with the identifier; it has
    each of [e], [u], [p], [h], [m] exactly when the field is not empty,
    with the decoded local part of the email for [e] and the decoded field
    for the others; it has no other key. *)
Theorem document_keys (self : Account) :
  document self !! "_id"%string = Some (to_object_id self) ∧
  document self !! "e"%string
  = (if truthy (email self) then Some (decode (fst (split_email self)))
     else None) ∧
  document self !! "u"%string
  = (if truthy (username self) then Some (decode (username self)) else None) ∧
  document self !! "p"%string
  = (if truthy (password self) then Some (decode (password self)) else None) ∧
  document self !! "h"%string
  = (if truthy (hash self) then Some (decode (hash self)) else None) ∧
  document self !! "m"%string
  = (if truthy (misc self) then Some (decode (misc self)) else None) ∧
  ∀ k : string,
    k ≠ "_id"%string → k ≠ "e"%string → k ≠ "u"%string → k ≠ "p"%string →
    k ≠ "h"%string → k ≠ "m"%string → document self !! k = None.
Proof.
  unfold document.
  destruct (truthy (email self)), (truthy (username self)),
    (truthy (password self)), (truthy (hash self)), (truthy (misc self));
    repeat split; intros; by simplify_map_eq.
Qed.

(** Without an email and a username, after cleanup, nothing is built. *)
Lemma init_without_names (email username password _hash misc : bytes) strict :
  account.email (cleanup email username password _hash misc) = [] →
  account.username (cleanup email username password _hash misc) = [] →
  __init__ email username password _hash misc strict
  = Raise AccountCreationError.
Proof.
  set (c := cleanup email username password _hash misc).
  intros He Hu. unfold __init__, normalize. fold c.
  assert (resolve_email strict c = Ok c) as ->.
  { unfold resolve_email. by rewrite He, Hu. }
  rewrite !bind_ok.
  set (a := password_to_misc (password_to_hash _hash c)).
  assert (enough a = false) as ->; [|reflexivity].
  unfold enough, a.
  destruct (password_to_misc_email (password_to_hash _hash c)) as (-> & -> & _).
  destruct (password_to_hash_email _hash c) as (-> & -> & _).
  by rewrite He, Hu.
Qed.

(** X18: a document with neither [e] nor [u] cannot be turned into a
    record: [from_document] fails with the construction error, whatever
    [_id], [p], [h] and [m] hold. *)
Theorem from_document_needs_a_name (document : gmap string str) :
  document !! "e"%string = None → document !! "u"%string = None →
  from_document document = Raise AccountCreationError.
Proof.
  intros He Hu. unfold from_document, _if_key_exists. rewrite He, Hu.
  rewrite bind_ok. by apply init_without_names.
Qed.

Lemma utf8_char_surrogate c : is_surrogate c = true → utf8_char c = None.
Proof.
  unfold is_surrogate, utf8_char. intros Hc. rewrite Hc.
  apply andb_true_iff in Hc as [Hlo _]. apply N.leb_le in Hlo.
  replace (c <? 128) with false by (symmetry; apply N.ltb_ge; lia).
  replace (c <? 2048) with false by (symmetry; apply N.ltb_ge; lia).
  reflexivity.
Qed.

Lemma encode_utf8_surrogate c (s t : str) :
  In c s → is_surrogate c = true → encode_utf8 (s ++ t) = None.
Proof.
  intros Hin Hc. induction s as [|x s IH]; [destruct Hin|].
  simpl. destruct Hin as [-> | Hin].
  - by rewrite utf8_char_surrogate.
  - rewrite (IH Hin). by destruct (utf8_char x).
Qed.

(** X19: when the text stored under [e] holds a surrogate code point, and
    [_id] is present, [from_document] does not fail with the construction
    error: the handler of the encoding error reads a local that was never
    assigned, and [UnboundLocalError] escapes. *)
Theorem from_document_surrogate (document : gmap string str) (e _id : str) (c : N) :
  document !! "e"%string = Some e → document !! "_id"%string = Some _id →
  In c e → is_surrogate c = true →
  from_document document = Raise UnboundLocalError.
Proof.
  intros He Hi Hin Hc. unfold from_document. rewrite He, Hi.
  by rewrite (encode_utf8_surrogate c e _ Hin Hc).
Qed.

Lemma document_lookups (self : Account) :
  document self !! "_id"%string = Some (to_object_id self) ∧
  document self !! "e"%string
  = (if truthy (email self) then Some (decode (fst (split_email self)))
     else None) ∧
  document self !! "u"%string
  = (if truthy (username self) then Some (decode (username self)) else None) ∧
  document self !! "p"%string
  = (if truthy (password self) then Some (decode (password self)) else None) ∧
  document self !! "h"%string
  = (if truthy (hash self) then Some (decode (hash self)) else None) ∧
  document self !! "m"%string
  = (if truthy (misc self) then Some (decode (misc self)) else None).
Proof.
  unfold document.
  destruct (truthy (email self)), (truthy (username self)),
    (truthy (password self)), (truthy (hash self)), (truthy (misc self));
    repeat split; by simplify_map_eq.
Qed.

(** X20: the presentation shape always has the six keys [i], [e], [u],
    [p], [h], [m] and no other; [i] is the [_id] of the document; a value
    the document has under [u], [p], [h] or [m] is the value of the same
    key here, and a key the document leaves out holds the decoded empty
    value; [e] holds the whole decoded email, not the local part. *)
Theorem json_and_document (self : Account) :
  json self !! "i"%string = document self !! "_id"%string ∧
  json self !! "e"%string = Some (decode (email self)) ∧
  (∀ (k : string) v,
     k ∈ [ "u"; "p"; "h"; "m" ]%string →
     document self !! k = Some v → json self !! k = Some v) ∧
  (∀ k : string,
     k ∈ [ "e"; "u"; "p"; "h"; "m" ]%string →
     document self !! k = None → json self !! k = Some (decode [])) ∧
  (∀ k : string,
     is_Some (json self !! k) ↔ k ∈ [ "i"; "e"; "u"; "p"; "h"; "m" ]%string).
Proof.
  destruct (document_lookups self)
    as (Di & De & Du & Dp & Dh & Dm).
  split; [by rewrite Di|]. split; [reflexivity|]. split; [|split].
  - intros k v Hk. unfold json.
    repeat (apply elem_of_cons in Hk as [-> | Hk]);
      [rewrite Du | rewrite Dp | rewrite Dh | rewrite Dm | by apply elem_of_nil in Hk];
      match goal with |- context [truthy ?f] => destruct f end;
      simpl; intros [= <-]; by simplify_map_eq.
  - intros k Hk. unfold json.
    repeat (apply elem_of_cons in Hk as [-> | Hk]);
      [rewrite De | rewrite Du | rewrite Dp | rewrite Dh | rewrite Dm
      | by apply elem_of_nil in Hk];
      match goal with |- context [truthy ?f] => destruct f eqn:E end;
      simpl; try discriminate; intros _; simplify_map_eq; by rewrite ?E.
  - intros k. unfold json. split.
    + intros Hs.
      destruct (decide (k = "i"%string)) as [->|]; [set_solver|].
      destruct (decide (k = "e"%string)) as [->|]; [set_solver|].
      destruct (decide (k = "u"%string)) as [->|]; [set_solver|].
      destruct (decide (k = "p"%string)) as [->|]; [set_solver|].
      destruct (decide (k = "h"%string)) as [->|]; [set_solver|].
      destruct (decide (k = "m"%string)) as [->|]; [set_solver|].
      simplify_map_eq; by destruct Hs.
    + intros Hk.
      repeat (apply elem_of_cons in Hk as [-> | Hk]);
        [..| by apply elem_of_nil in Hk]; by simplify_map_eq.
Qed.

(** The validity test survives lines 109-113 when the repair step keeps a
    non-empty value non-empty. *)
Lemma gate_truncate (a : Account) :
  (∀ s, s ≠ [] → clean_encoding s ≠ []) → gate a → gate (truncate a).
Proof.
  intros Hkeep G. unfold gate, truncate in *.
  cbn [account.email account.username account.password hash account.misc].
  unfold max_length_1, max_length_2.
  destruct G as [G | (Gu & [G | [G | G]])].
  - left. apply slice_last_nonempty; [lia | auto].
  - right. split; [apply slice_to_nonempty; [lia | auto]|].
    left. apply slice_to_nonempty; [lia | auto].
  - right. split; [apply slice_to_nonempty; [lia | auto]|].
    right. left. apply slice_to_nonempty; [lia | auto].
  - right. split; [apply slice_to_nonempty; [lia | auto]|].
    right. right. apply slice_to_nonempty; [lia | auto].
Qed.

(** X21: [__repr__] of a constructed record is never empty: it is the
    username, or the email when there is no username; the repair step is
    taken to keep a non-empty value non-empty. *)
Theorem repr_is_not_empty
    (email username password _hash misc : bytes) (strict : bool) (r : Account) :
  (∀ s, s ≠ [] → clean_encoding s ≠ []) →
  __init__ email username password _hash misc strict = Ok r →
  __repr__ r ≠ [].
Proof.
  intros Hkeep. unfold __init__.
  destruct (normalize email username password _hash misc strict)
    as [a|e]; [|discriminate].
  rewrite bind_ok. destruct (enough a) eqn:G; [|discriminate].
  cbn [negb]. intros [= <-].
  apply enough_gate, (gate_truncate _ Hkeep) in G.
  unfold __repr__.
  destruct (account.username (truncate a)) as [|c u'] eqn:U; simpl.
  - destruct G as [G | (G & _)]; [exact G | congruence].
  - discriminate.
Qed.

End with_runtime.

Lemma from_document_needs_a_name_witness :
  let document : gmap string str :=
    <[ "_id"%string := u "moc.b|abc" ]> (<[ "p"%string := u "hunter2" ]> ∅) in
  document !! "e"%string = None ∧ document !! "u"%string = None ∧
  from_document document = Raise AccountCreationError.
Proof.
  intros document. split; [reflexivity|]. split; [reflexivity|].
  exact (from_document_needs_a_name document eq_refl eq_refl).
Defined.

Lemma from_document_surrogate_witness :
  let document : gmap string str :=
    <[ "_id"%string := u "moc.b|abc" ]> (<[ "e"%string := [97; 55357] ]> ∅) in
  document !! "e"%string = Some [97; 55357] ∧
  document !! "_id"%string = Some (u "moc.b|abc") ∧
  In 55357 [97; 55357] ∧ is_surrogate 55357 = true ∧
  from_document document = Raise UnboundLocalError.
Proof.
  intros document.
  assert (In 55357 [97; 55357]) as Hin by (right; left; reflexivity).
  split; [reflexivity|]. split; [reflexivity|]. split; [exact Hin|].
  split; [reflexivity|].
  exact (from_document_surrogate document [97; 55357] (u "moc.b|abc") 55357
           eq_refl eq_refl Hin eq_refl).
Defined.

Lemma repr_is_not_empty_witness :
  let r := mkAccount (b "john.doe@example.com") [] (b "hunter2") [] [] in
  (∀ s, s ≠ [] → clean_encoding s ≠ []) ∧
  __init__ [] (b "John.Doe@Example.com") (b "hunter2") [] [] false = Ok r ∧
  __repr__ r ≠ [].
Proof.
  intros r.
  assert (__init__ [] (b "John.Doe@Example.com") (b "hunter2") [] [] false
          = Ok r) as Hr by reflexivity.
  split; [exact SampleFacts.utf8_replace_nonempty|]. split; [exact Hr|].
  exact (repr_is_not_empty _ _ _ _ _ _ _ SampleFacts.utf8_replace_nonempty Hr).
Defined.

(** X22: the text of a metadata object without sources is empty; with
    sources whose texts hold no line feed, its lines are the sources in
    their order, each after [ |- ], and there are as many lines as
    [__len__] says. *)
Theorem metadata_lines {Source} (str_ : Source → str)
    (self : AccountMetadata Source) :
  (sources self = [] → AccountMetadata_str str_ self = []) ∧
  (sources self ≠ [] →
   (∀ source, In source (sources self) → sep_free N.eqb 10 (str_ source) = true) →
   split N.eqb 10 (AccountMetadata_str str_ self)
   = map (λ source, u " |- " ++ str_ source) (AccountMetadata_iter self) ∧
   length (split N.eqb 10 (AccountMetadata_str str_ self))
   = AccountMetadata_len self).
Proof.
  unfold AccountMetadata_str, AccountMetadata_iter, AccountMetadata_len.
  split; [by intros ->|]. intros Hne Hfree.
  assert (split N.eqb 10
            (u "" ++ join [10] (map (λ source, u " |- " ++ str_ source)
                                  (sources self)))
          = map (λ source, u " |- " ++ str_ source) (sources self)) as E.
  { apply (split_join N.eqb 10 eq_refl).
    - destruct (sources self); [congruence | discriminate].
    - clear Hne. induction (sources self) as [|x l IH]; [reflexivity|].
      cbn [map forallb]. rewrite IH by (intros; apply Hfree; by right).
      rewrite andb_true_r. unfold sep_free. rewrite forallb_app.
      apply andb_true_iff. split; [reflexivity|]. apply Hfree. by left. }
  split; [exact E|]. by rewrite E, length_map.
Qed.

End DocumentFacts.
